(** * esptool.py: ROM bootloader protocol engine and firmware image builder

    A shallow embedding of [src/esptool.py] (classes [ESPROM] and [Image])
    and the properties of its framing, checksum, command, connection,
    programming and image-serialization code. *)

From Stdlib Require Import ZArith List Lia Bool String QArith Permutation Sorted.
From Stdlib Require Import Strings.Byte.
Import ListNotations.
Local Open Scope Z_scope.

(* ================================================================== *)
(** * Python values: exceptions, bytes, struct packing                 *)
(* ================================================================== *)

Module Py.

(** The exceptions the program can raise.  [StructError] is
    [struct.error]; [SerialException] stands for whatever the serial
    library itself raises; [PyException] is the base class [Exception]
    raised with a message. *)
Inductive exn : Type :=
| NameError (name : string)
| TypeError
| AttributeError
| IndexError
| KeyError
| ValueError (msg : string)
| StructError
| SerialException
| PyException (msg : string).

(** The outcome of evaluating a Python expression or call. *)
Inductive result (A : Type) : Type :=
| Ok (a : A)
| Raise (e : exn).
Arguments Ok {A} a.
Arguments Raise {A} e.

Definition rbind {A B} (r : result A) (f : A -> result B) : result B :=
  match r with
  | Ok a => f a
  | Raise e => Raise e
  end.

(** A [bytes] object. *)
Definition bytes := list byte.

(** Indexing or iterating a [bytes] object gives ints in [range(256)]. *)
Definition Z_of_byte (b : byte) : Z := Z.of_N (Byte.to_N b).

(** The byte whose value is [z mod 256]. *)
Definition byte_of_Z (z : Z) : byte :=
  match Byte.of_N (Z.to_N (z mod 256)) with
  | Some b => b
  | None => x00
  end.

(** [bytes([z1, ..., zn])]: every element must be in [range(256)]. *)
Fixpoint bytes_of_ints (l : list Z) : result bytes :=
  match l with
  | [] => Ok []
  | z :: l' =>
      if (0 <=? z) && (z <? 256)
      then rbind (bytes_of_ints l') (fun bs => Ok (byte_of_Z z :: bs))
      else Raise (ValueError "bytes must be in range(0, 256)"%string)
  end.

(** [c * n] for a one-byte [c]: a non-positive count gives [b'']. *)
Definition bytes_repeat (c : byte) (n : Z) : bytes := repeat c (Z.to_nat n).

(** [len(b)] as a Python int. *)
Definition len {A} (l : list A) : Z := Z.of_nat (List.length l).

(** [s.replace(old, new)] for a one-byte pattern [old]. *)
Fixpoint replace1 (old : byte) (new : bytes) (s : bytes) : bytes :=
  match s with
  | [] => []
  | c :: s' => (if Byte.eqb c old then new else [c]) ++ replace1 old new s'
  end.

(** Little-endian encoding on [n] bytes. *)
Fixpoint le_bytes (n : nat) (z : Z) : bytes :=
  match n with
  | O => []
  | S n' => byte_of_Z z :: le_bytes n' (z / 256)
  end.

(** Little-endian decoding. *)
Fixpoint le_int (bs : bytes) : Z :=
  match bs with
  | [] => 0
  | b :: bs' => Z_of_byte b + 256 * le_int bs'
  end.

(** One field of [struct.pack('<...')]: formats [B], [H] and [I] take
    [n = 1, 2, 4] bytes and raise [struct.error] out of range. *)
Definition pack_uint (n : nat) (z : Z) : result bytes :=
  if (0 <=? z) && (z <? 2 ^ (8 * Z.of_nat n))
  then Ok (le_bytes n z)
  else Raise StructError.

Definition pack_B := pack_uint 1.
Definition pack_H := pack_uint 2.
Definition pack_I := pack_uint 4.

(** [struct.pack('<I...I', z1, ..., zn)]. *)
Fixpoint pack_Is (zs : list Z) : result bytes :=
  match zs with
  | [] => Ok []
  | z :: zs' =>
      rbind (pack_I z) (fun b => rbind (pack_Is zs') (fun bs => Ok (b ++ bs)))
  end.

(** One field of [struct.unpack('<...')]: the unsigned little-endian
    integer on [n] bytes at byte offset [off]. *)
Definition uint_at (off n : nat) (bs : bytes) : Z :=
  le_int (firstn n (skipn off bs)).

Definition u32_at (off : nat) (bs : bytes) : Z := uint_at off 4 bs.

(** [chunks(iterable, n)]: the slices [iterable[ndx:min(ndx+n, l)]] for
    [ndx] in [range(0, l, n)].  Both call sites pass a positive constant
    [n]; [fuel] bounds the number of slices by the length. *)
Fixpoint chunks_from {A} (fuel : nat) (n : nat) (l : list A) : list (list A) :=
  match fuel with
  | O => []
  | S fuel' =>
      match l with
      | [] => []
      | _ :: _ => firstn n l :: chunks_from fuel' n (skipn n l)
      end
  end.

Definition chunks {A} (l : list A) (n : nat) : list (list A) :=
  chunks_from (List.length l) n l.

(** [enumerate(l)]. *)
Fixpoint enumerate_from {A} (i : Z) (l : list A) : list (Z * A) :=
  match l with
  | [] => []
  | x :: l' => (i, x) :: enumerate_from (i + 1) l'
  end.

Definition enumerate {A} (l : list A) : list (Z * A) := enumerate_from 0 l.

(** [functools.reduce(f, data)] without an initial value: the first
    element starts the fold, and an empty iterable is a [TypeError]. *)
Definition reduce (f : Z -> Z -> Z) (data : list Z) : result Z :=
  match data with
  | [] => Raise TypeError
  | x :: rest => Ok (fold_left f rest x)
  end.

End Py.
Import Py.

(* ================================================================== *)
(** * ESPROM constants and the checksum                                *)
(* ================================================================== *)

Module ESPROM_const.

Definition ESP_FLASH_BEGIN : Z := 0x02.
Definition ESP_FLASH_DATA : Z := 0x03.
Definition ESP_FLASH_END : Z := 0x04.
Definition ESP_MEM_BEGIN : Z := 0x05.
Definition ESP_MEM_END : Z := 0x06.
Definition ESP_MEM_DATA : Z := 0x07.
Definition ESP_SYNC : Z := 0x08.
Definition ESP_WRITE_REG : Z := 0x09.
Definition ESP_READ_REG : Z := 0x0a.

Definition ESP_RAM_BLOCK : Z := 0x1800.
Definition ESP_FLASH_BLOCK : Z := 0x400.

Definition ESP_IMAGE_MAGIC : Z := 0xe9.
Definition ESP_CHECKSUM_MAGIC : Z := 0xef.
Definition ESP_FLASH_BASE : Z := 0x40200000.

End ESPROM_const.
Import ESPROM_const.

(** [ESPROM.checksum(data, state)]:
    [state ^ functools.reduce(operator.xor, data)]. *)
Definition checksum (data : bytes) (state : Z) : result Z :=
  rbind (reduce Z.lxor (map Z_of_byte data)) (fun x => Ok (Z.lxor state x)).

(* ================================================================== *)
(** * The serial port and the monad of port programs                   *)
(* ================================================================== *)

Module Port.

(** The [serial.Serial] object as the program uses it.  [D] is the state
    of the line and of the device behind it.  [port_read] is [read(1)]
    under the current [timeout] attribute: [Some c] when a byte arrives,
    [None] when the read comes back empty. *)
Class Serial (D : Type) : Type := {
  port_read : option Q -> D -> result (option byte) * D;
  port_write : bytes -> D -> result unit * D;
  port_flushInput : D -> result unit * D;
  port_flushOutput : D -> result unit * D
}.

(** What the program does to the outside world, in order. *)
Inductive event : Type :=
| EvSetTimeout (t : option Q)
| EvRead (t : option Q)
| EvWrite (data : bytes)
| EvFlushInput
| EvFlushOutput
| EvSleep (t : Q).

Section Monad.
Context {D : Type}.

(** [self._port]: the line and the [timeout] attribute. *)
Record port : Type := mkPort { dev : D; timeout : option Q }.

(** A program: from a port to an outcome, the port afterwards and the
    events emitted. *)
Definition M (A : Type) : Type := port -> result A * port * list event.

Definition ret {A} (a : A) : M A := fun s => (Ok a, s, []).

Definition raise {A} (e : exn) : M A := fun s => (Raise e, s, []).

Definition bind {A B} (m : M A) (f : A -> M B) : M B :=
  fun s =>
    match m s with
    | (Ok a, s1, t1) =>
        match f a s1 with
        | (r, s2, t2) => (r, s2, t1 ++ t2)
        end
    | (Raise e, s1, t1) => (Raise e, s1, t1)
    end.

(** A pure, fallible computation inside a program. *)
Definition lift {A} (r : result A) : M A := fun s => (r, s, []).

(** [try: m  except: h] with a bare [except], which catches everything. *)
Definition try_except {A} (m : M A) (h : M A) : M A :=
  fun s =>
    match m s with
    | (Ok a, s1, t1) => (Ok a, s1, t1)
    | (Raise _, s1, t1) =>
        match h s1 with
        | (r, s2, t2) => (r, s2, t1 ++ t2)
        end
    end.

(** [try: return m  finally: h]: [h] runs on both exits and the outcome
    of [m] stands unless [h] itself raises. *)
Definition try_finally {A} (m : M A) (h : M unit) : M A :=
  fun s =>
    match m s with
    | (r, s1, t1) =>
        match h s1 with
        | (Ok _, s2, t2) => (r, s2, t1 ++ t2)
        | (Raise e, s2, t2) => (Raise e, s2, t1 ++ t2)
        end
    end.

Definition outcome {A} (x : result A * port * list event) : result A :=
  fst (fst x).
Definition final {A} (x : result A * port * list event) : port :=
  snd (fst x).
Definition trace {A} (x : result A * port * list event) : list event :=
  snd x.

(** [for x in l: body(x)]. *)
Fixpoint for_each {A} (l : list A) (body : A -> M unit) : M unit :=
  match l with
  | [] => ret tt
  | x :: l' => bind (body x) (fun _ => for_each l' body)
  end.

(** [self._port.timeout]. *)
Definition get_timeout : M (option Q) := fun s => (Ok (timeout s), s, []).

(** [self._port.timeout = t]. *)
Definition set_timeout (t : option Q) : M unit :=
  fun s => (Ok tt, mkPort (dev s) t, [EvSetTimeout t]).

(** [time.sleep(t)]. *)
Definition sleep (t : Q) : M unit := fun s => (Ok tt, s, [EvSleep t]).

Context {serial : Serial D}.

(** [self._port.read(1)[0]]: indexing the empty result of a read that
    timed out is an [IndexError]. *)
Definition read_byte : M byte :=
  fun s =>
    match port_read (timeout s) (dev s) with
    | (Ok (Some c), d) => (Ok c, mkPort d (timeout s), [EvRead (timeout s)])
    | (Ok None, d) => (Raise IndexError, mkPort d (timeout s), [EvRead (timeout s)])
    | (Raise e, d) => (Raise e, mkPort d (timeout s), [EvRead (timeout s)])
    end.

(** [self._port.write(data)]. *)
Definition write_bytes (data : bytes) : M unit :=
  fun s =>
    match port_write data (dev s) with
    | (r, d) => (r, mkPort d (timeout s), [EvWrite data])
    end.

(** [self._port.flushInput()]. *)
Definition flushInput : M unit :=
  fun s =>
    match port_flushInput (dev s) with
    | (r, d) => (r, mkPort d (timeout s), [EvFlushInput])
    end.

(** [self._port.flushOutput()]. *)
Definition flushOutput : M unit :=
  fun s =>
    match port_flushOutput (dev s) with
    | (r, d) => (r, mkPort d (timeout s), [EvFlushOutput])
    end.

End Monad.

Arguments port D : clear implicits.
Arguments M D A : clear implicits.

End Port.
Import Port.

Declare Scope port_scope.
Delimit Scope port_scope with port.
Notation "x <- m ;; k" := (bind m (fun x => k))
  (at level 61, m at next level, right associativity) : port_scope.
Notation "m ;;; k" := (bind m (fun _ => k))
  (at level 61, right associativity) : port_scope.

(* ================================================================== *)
(** * Names bound at module level                                      *)
(* ================================================================== *)

Module Script.

(** What a module-level name is bound to, as far as the methods below
    care: an int, the [ESPROM] instance, or anything else. *)
Inductive pyobj : Type :=
| ObjInt (z : Z)
| ObjESPROM
| ObjOther.

(** How the module is being used when a method runs: imported by
    another program, or run as a script, in which case the command line
    either names a port or does not. *)
Inductive run_mode : Type :=
| Imported
| Script (with_port : bool).

(** The names every use of the module binds: the imports, [chunks] and
    the two classes.  The two starred imports of pyelftools bring enum
    tables and flag classes ([ENUM_*], [SH_FLAGS], ...). *)
Definition import_globals : list (string * pyobj) :=
  [ ("sys", ObjOther); ("struct", ObjOther); ("math", ObjOther);
    ("time", ObjOther); ("argparse", ObjOther); ("operator", ObjOther);
    ("functools", ObjOther); ("subprocess", ObjOther);
    ("ELFFile", ObjOther); ("SH_FLAGS", ObjOther); ("serial", ObjOther);
    ("chunks", ObjOther); ("ESPROM", ObjOther); ("Image", ObjOther) ]%string.

(** The names the [__main__] block binds before it looks at the
    operation. *)
Definition main_globals : list (string * pyobj) :=
  [ ("_arg_auto_int", ObjOther); ("parser", ObjOther);
    ("subparsers", ObjOther); ("parser_load_ram", ObjOther);
    ("parser_dump_mem", ObjOther); ("parser_read_mem", ObjOther);
    ("parser_write_mem", ObjOther); ("parser_write_flash", ObjOther);
    ("parser_make_image", ObjOther); ("parser_run", ObjOther);
    ("parser_image_info", ObjOther); ("args", ObjOther) ]%string.

(** The names bound when the module runs as a script.  [esp] is
    assigned, to the connected [ESPROM], only under [if 'port' in args].
    The operation blocks bind a few more names of their own ([img],
    [base], [data], [addr], [f], [out]); no method reads any of them. *)
Definition script_globals (with_port : bool) : list (string * pyobj) :=
  import_globals ++ main_globals ++
  (if with_port then [("esp", ObjESPROM)]%string else []).

(** The module-level names in each use of the module. *)
Definition module_globals (mode : run_mode) : list (string * pyobj) :=
  match mode with
  | Imported => import_globals
  | Script with_port => script_globals with_port
  end.

(** Reading a name that is neither a local nor a parameter. *)
Fixpoint lookup (name : string) (env : list (string * pyobj)) : result pyobj :=
  match env with
  | [] => Raise (NameError name)
  | (n, o) :: env' => if String.eqb n name then Ok o else lookup name env'
  end.

Definition load_global (mode : run_mode) (name : string) : result pyobj :=
  lookup name (module_globals mode).

(** Using an object where a number is needed. *)
Definition as_int (o : pyobj) : result Z :=
  match o with
  | ObjInt z => Ok z
  | _ => Raise TypeError
  end.

(** [o.ESP_FLASH_BLOCK]. *)
Definition attr_ESP_FLASH_BLOCK (o : pyobj) : result Z :=
  match o with
  | ObjESPROM => Ok ESP_FLASH_BLOCK
  | _ => Raise AttributeError
  end.

End Script.
Import Script.

(* ================================================================== *)
(** * class ESPROM                                                     *)
(* ================================================================== *)

Module ESPROM.

Local Open Scope port_scope.

(** [b'\xc0' + packet.replace(b'\xdb', b'\xdb\xdd')
                     .replace(b'\xc0', b'\xdb\xdc') + b'\xc0'],
    the argument of the port write in [ESPROM.write]. *)
Definition slip_frame (packet : bytes) : bytes :=
  [xc0] ++ replace1 xc0 [xdb; xdc] (replace1 xdb [xdb; xdd] packet) ++ [xc0].

(** [struct.pack('<BBHI', 0x00, op, len(data), chk) + data]. *)
Definition request_packet (op : Z) (data : bytes) (chk : Z) : result bytes :=
  rbind (pack_B 0) (fun z =>
  rbind (pack_B op) (fun o =>
  rbind (pack_H (len data)) (fun l =>
  rbind (pack_I chk) (fun c => Ok (z ++ o ++ l ++ c ++ data))))).

(** [op and op_ret != op]: an absent or zero [op] checks nothing. *)
Definition op_mismatch (op : option Z) (op_ret : Z) : bool :=
  match op with
  | Some o => negb (o =? 0) && negb (op_ret =? o)
  | None => false
  end.

Definition bytes_eqb (a b : bytes) : bool :=
  if list_eq_dec Byte.byte_eq_dec a b then true else false.

(** The payload of the sync probe. *)
Definition sync_payload : bytes := [x07; x07; x12; x20] ++ repeat x55 32.

(** The payloads of the begin and finish commands. *)
Definition mem_begin_payload (size blocks blocksize offset : Z) : result bytes :=
  pack_Is [size; blocks; blocksize; offset].

Definition flash_begin_payload (size offset : Z) : result bytes :=
  pack_Is [size; 0x200; 0x400; offset].

Definition mem_finish_payload (entrypoint : Z) : result bytes :=
  pack_Is [if entrypoint =? 0 then 1 else 0; entrypoint].

(** The payload of a RAM or flash block. *)
Definition block_payload (data : bytes) (seq : Z) : result bytes :=
  rbind (pack_Is [len data; seq; 0; 0]) (fun h => Ok (h ++ data)).

(** What the escaping does to one payload byte. *)
Definition slip_escape (c : byte) : bytes :=
  if Byte.eqb c xc0 then [xdb; xdc]
  else if Byte.eqb c xdb then [xdb; xdd]
  else [c].

(** The framing with the two substitutions in the order the
    specification gives them: [0xC0] first, then [0xDB]. *)
Definition spec_slip_frame (packet : bytes) : bytes :=
  [xc0] ++ replace1 xdb [xdb; xdd] (replace1 xc0 [xdb; xdc] packet) ++ [xc0].

(** [math.ceil(size / float(block))] for a positive [block]. *)
Definition ceil_div (size block : Z) : Z := - ((- size) / block).

Section Methods.
Context {D : Type} {serial : Serial D}.

(** The local function [slip_read] of [ESPROM.read].  It returns an int
    in [range(256)], held here as the byte that [bytes([...])] makes of
    it. *)
Definition slip_read : M D byte :=
  c <- read_byte ;;
  if Byte.eqb c xdb then
    c' <- read_byte ;;
    if Byte.eqb c' xdc then ret xc0
    else if Byte.eqb c' xdd then ret xdb
    else raise (ValueError "Invalid SLIP escape sequence received from device")
  else ret c.

Fixpoint read_n (n : nat) : M D bytes :=
  match n with
  | O => ret []
  | S n' => c <- slip_read ;; cs <- read_n n' ;; ret (c :: cs)
  end.

(** [ESPROM.read(length)]. *)
Definition read (length : Z) : M D bytes := read_n (Z.to_nat length).

(** [ESPROM.write(packet)]. *)
Definition write (packet : bytes) : M D unit := write_bytes (slip_frame packet).

(** [ESPROM.command(op, data, chk)].  The messages of the two delimiter
    errors also quote the byte received, left out here. *)
Definition command (op : option Z) (data : bytes) (chk : Z) : M D (Z * bytes) :=
  match op with
  | Some o => pkt <- lift (request_packet o data chk) ;; write pkt
  | None => ret tt
  end ;;;
  c <- read_byte ;;
  if negb (Byte.eqb c xc0) then raise (ValueError "Invalid head of packet")
  else
    hdr <- read 8 ;;
    let resp := uint_at 0 1 hdr in
    let op_ret := uint_at 1 1 hdr in
    let len_ret := uint_at 2 2 hdr in
    let val := uint_at 4 4 hdr in
    if negb (resp =? 0x01) || op_mismatch op op_ret
    then raise (ValueError "Invalid response")
    else
      body <- read len_ret ;;
      c <- read_byte ;;
      if negb (Byte.eqb c xc0) then raise (ValueError "Invalid end of packet")
      else ret (val, body).

(** [ESPROM.simple_command(op, data, chk)]. *)
Definition simple_command (op : option Z) (data : bytes) (chk : Z) : M D Z :=
  r <- command op data chk ;;
  if negb (bytes_eqb (snd r) [x00; x00])
  then raise (ValueError "Invalid command response from device")
  else ret (fst r).

(** [ESPROM.sync()]. *)
Definition sync : M D unit :=
  command (Some ESP_SYNC) sync_payload 0 ;;;
  for_each (seq 0 7) (fun _ => command None [] 0 ;;; ret tt).

(** One turn of the loop of [connect]: [true] when the [try] body reached
    its [return], [false] when the bare [except] ran. *)
Definition connect_attempt : M D bool :=
  try_except
    (flushInput ;;; flushOutput ;;; sync ;;; set_timeout (Some 5%Q) ;;; ret true)
    (sleep 0.1%Q ;;; ret false).

Fixpoint connect_loop (n : nat) : M D unit :=
  match n with
  | O => raise (PyException "Failed to connect")
  | S n' => done <- connect_attempt ;; if done then ret tt else connect_loop n'
  end.

(** [ESPROM.connect()]. *)
Definition connect : M D unit :=
  set_timeout (Some 0.5%Q) ;;; connect_loop 10.

(** [ESPROM.read_reg(addr)]. *)
Definition read_reg (addr : Z) : M D Z :=
  p <- lift (pack_Is [addr]) ;; simple_command (Some ESP_READ_REG) p 0.

(** [ESPROM.write_reg(addr, value, mask, delay_us)]. *)
Definition write_reg (addr value mask delay_us : Z) : M D Z :=
  p <- lift (pack_Is [addr; value; mask; delay_us]) ;;
  simple_command (Some ESP_WRITE_REG) p 0.

(** [ESPROM.mem_begin(size, blocks, blocksize, offset)]. *)
Definition mem_begin (size blocks blocksize offset : Z) : M D Z :=
  p <- lift (mem_begin_payload size blocks blocksize offset) ;;
  simple_command (Some ESP_MEM_BEGIN) p 0.

(** [ESPROM.mem_block(data, seq)]. *)
Definition mem_block (data : bytes) (seq : Z) : M D Z :=
  p <- lift (block_payload data seq) ;;
  chk <- lift (checksum data ESP_CHECKSUM_MAGIC) ;;
  simple_command (Some ESP_MEM_DATA) p chk.

(** [ESPROM.mem_finish(entrypoint)]. *)
Definition mem_finish (entrypoint : Z) : M D Z :=
  p <- lift (mem_finish_payload entrypoint) ;;
  simple_command (Some ESP_MEM_END) p 0.

(** [ESPROM.flash_begin(size, offset)]. *)
Definition flash_begin (size offset : Z) : M D Z :=
  old_tmo <- get_timeout ;;
  set_timeout (Some 10%Q) ;;;
  try_finally
    (p <- lift (flash_begin_payload size offset) ;;
     simple_command (Some ESP_FLASH_BEGIN) p 0)
    (set_timeout old_tmo).

(** [ESPROM.flash_block(data, seq)]. *)
Definition flash_block (data : bytes) (seq : Z) : M D Z :=
  p <- lift (block_payload data seq) ;;
  chk <- lift (checksum data ESP_CHECKSUM_MAGIC) ;;
  simple_command (Some ESP_FLASH_DATA) p chk.

(** [ESPROM.flash_finish(reboot)]. *)
Definition flash_finish (reboot : bool) : M D unit :=
  pkt <- lift (pack_Is [if reboot then 0 else 1]) ;;
  r <- command (Some ESP_FLASH_END) pkt 0 ;;
  if bytes_eqb (snd r) [x00; x00] || bytes_eqb (snd r) [x01; x06]
  then ret tt
  else raise (PyException "Failed to leave Flash mode").

(** [ESPROM.flash_image(offx, img, info)]; [info] only reports progress.
    The block size is read through the module-level name [esp], after
    the flash-begin; [mode] says which module-level names are bound. *)
Definition flash_image (mode : run_mode) (offx : Z) (img : bytes) : M D unit :=
  flash_begin (len img) offx ;;;
  blk <- lift (rbind (load_global mode "esp") attr_ESP_FLASH_BLOCK) ;;
  for_each (enumerate (chunks img (Z.to_nat blk)))
    (fun sc => flash_block (snd sc) (fst sc) ;;; ret tt).

(** [ESPROM.write_memory_image(sections, entrypoint, info)]; [info] only
    reports progress.  In the loop body [size] is not a parameter and is
    never assigned, so it is read as a module-level name, before
    [mem_begin] is called; [mode] says which module-level names are
    bound. *)
Definition write_memory_image (mode : run_mode)
  (sections : list (Z * bytes)) (entrypoint : Z) : M D unit :=
  for_each (enumerate sections)
    (fun isec =>
       let addr := fst (snd isec) in
       let data := snd (snd isec) in
       size <- lift (load_global mode "size") ;;
       size' <- lift (as_int size) ;;
       mem_begin size' (ceil_div size' ESP_RAM_BLOCK) ESP_RAM_BLOCK addr ;;;
       for_each (enumerate (chunks data (Z.to_nat ESP_RAM_BLOCK)))
         (fun sc => mem_block (snd sc) (fst sc) ;;; ret tt)) ;;;
  mem_finish entrypoint ;;; ret tt.

(** [ESPROM.run(reboot)]. *)
Definition run (reboot : bool) : M D unit :=
  flash_begin 0 0 ;;; flash_finish reboot.

End Methods.

End ESPROM.
Import ESPROM.

(* ================================================================== *)
(** * class Image                                                      *)
(* ================================================================== *)

Module Image.

(** A section: [(addr, data)]. *)
Definition section : Type := Z * bytes.

(** The attributes of an [Image].  [entrypoint] is [None] until it is
    given or loaded. *)
Record Image : Type := mkImage {
  loaded_sections : list section;
  static_sections : list section;
  entrypoint : option Z;
  flash_base : Z
}.

(** A method of [Image]: its outcome and the object afterwards. *)
Definition IM (A : Type) : Type := Image -> result A * Image.

Definition ibind {A B} (m : IM A) (f : A -> IM B) : IM B :=
  fun self =>
    match m self with
    | (Ok a, self') => f a self'
    | (Raise e, self') => (Raise e, self')
    end.

(** [Image(entrypoint=..., flash_base=...)] without an ELF file. *)
Definition init (entrypoint : option Z) (flash_base : Z) : Image :=
  mkImage [] [] entrypoint flash_base.

(** [Image.add_section(addr, data)]. *)
Definition add_section (addr : Z) (data : bytes) (self : Image) : Image :=
  if addr <? flash_base self
  then mkImage (loaded_sections self ++ [(addr, data)]) (static_sections self)
               (entrypoint self) (flash_base self)
  else mkImage (loaded_sections self) (static_sections self ++ [(addr, data)])
               (entrypoint self) (flash_base self).

(** [a < b] on [bytes]: lexicographic on the byte values. *)
Fixpoint bytes_ltb (a b : bytes) : bool :=
  match a, b with
  | [], [] => false
  | [], _ :: _ => true
  | _ :: _, [] => false
  | x :: a', y :: b' =>
      if Byte.eqb x y then bytes_ltb a' b' else Z_of_byte x <? Z_of_byte y
  end.

(** [s < t] on the tuples [(addr, data)]: the first components decide
    unless they are equal. *)
Definition section_ltb (s t : section) : bool :=
  if fst s =? fst t then bytes_ltb (snd s) (snd t) else fst s <? fst t.

(** [list.sort()] is stable and compares with [<] only; so is this
    insertion sort, which puts an element before the ones it is not
    greater than. *)
Fixpoint insert (x : section) (l : list section) : list section :=
  match l with
  | [] => [x]
  | y :: l' => if section_ltb y x then y :: insert x l' else x :: y :: l'
  end.

Definition sort (l : list section) : list section := fold_right insert [] l.

(** [data + b'\0' * (3 - (len(data) - 1) % 4)]. *)
Definition pad4 (data : bytes) : bytes :=
  data ++ bytes_repeat x00 (3 - (len data - 1) mod 4).

(** [struct.pack('<BBBBI', ESP_IMAGE_MAGIC, len(loaded_sections), 0, 0,
    entrypoint)]: an [entrypoint] that is [None] cannot be packed. *)
Definition image_header (nsec : Z) (entry : option Z) : result bytes :=
  rbind (pack_B ESP_IMAGE_MAGIC) (fun m =>
  rbind (pack_B nsec) (fun n =>
  rbind (pack_B 0) (fun z1 =>
  rbind (pack_B 0) (fun z2 =>
  rbind (match entry with Some e => pack_I e | None => Raise StructError end)
        (fun e => Ok (m ++ n ++ z1 ++ z2 ++ e)))))).

(** The loop of [loader_image]: [b += sechdr(addr, len(data)) + data]
    with [data] padded. *)
Fixpoint loader_body (b : bytes) (secs : list section) : result bytes :=
  match secs with
  | [] => Ok b
  | (addr, data) :: secs' =>
      let data' := pad4 data in
      rbind (pack_Is [addr; len data']) (fun h =>
      loader_body (b ++ h ++ data') secs')
  end.

(** [b''.join(data for _1, data in self.loaded_sections)]. *)
Definition joined_data (secs : list section) : bytes := List.concat (map snd secs).

(** [Image.loader_image()]. *)
Definition loader_image : IM bytes :=
  fun self =>
    (rbind (image_header (len (loaded_sections self)) (entrypoint self)) (fun b0 =>
     rbind (loader_body b0 (loaded_sections self)) (fun b =>
     rbind (checksum (joined_data (loaded_sections self)) ESP_CHECKSUM_MAGIC) (fun ck =>
     let pad := 15 - (len b) mod 16 in
     rbind (bytes_of_ints [ck]) (fun cb =>
     Ok (b ++ bytes_repeat x00 pad ++ cb))))),
     self).

(** The loop of [static_image]:
    [b += b'\xff' * (addr - base - len(b)); b += data]. *)
Fixpoint static_body (base : Z) (b : bytes) (secs : list section) : bytes :=
  match secs with
  | [] => b
  | (addr, data) :: secs' =>
      static_body base (b ++ bytes_repeat xff (addr - base - len b) ++ data) secs'
  end.

(** [Image.static_image()]: [self.static_sections.sort()] sorts the
    attribute in place before anything is read from it. *)
Definition static_image : IM (Z * bytes) :=
  fun self =>
    let self' := mkImage (loaded_sections self) (sort (static_sections self))
                         (entrypoint self) (flash_base self) in
    match static_sections self' with
    | [] => (Raise IndexError, self')
    | (base, _) :: _ =>
        (Ok (base - flash_base self',
             static_body base [] (static_sections self')), self')
    end.

(** [Image.combined_image()]. *)
Definition combined_image : IM bytes :=
  ibind loader_image (fun limg =>
  ibind static_image (fun st =>
  fun self => (Ok (limg ++ bytes_repeat xff (fst st - len limg) ++ snd st), self))).

End Image.
Import Image.

(* ================================================================== *)
(** * Two lines to run the port programs on                            *)
(* ================================================================== *)

Module Lines.

(** A line wired back on itself: what is written is what is read next.
    [flushInput] drops what has not been read. *)
#[export] Instance loopback : Serial bytes := {
  port_read := fun _ q =>
    match q with
    | [] => (Ok None, [])
    | c :: q' => (Ok (Some c), q')
    end;
  port_write := fun data q => (Ok tt, q ++ data);
  port_flushInput := fun _ => (Ok tt, []);
  port_flushOutput := fun q => (Ok tt, q)
}.

(** A device that stays silent until the [ready]-th flush of the input
    buffer, and then has [reply] waiting to be read. *)
Record scripted : Type := mkScripted {
  ready : nat;
  reply : bytes;
  flushes : nat;
  rx : bytes
}.

#[export] Instance scripted_serial : Serial scripted := {
  port_read := fun _ d =>
    match rx d with
    | [] => (Ok None, d)
    | c :: q => (Ok (Some c), mkScripted (ready d) (reply d) (flushes d) q)
    end;
  port_write := fun _ d => (Ok tt, d);
  port_flushInput := fun d =>
    let n := S (flushes d) in
    (Ok tt, mkScripted (ready d) (reply d) n
                       (if Nat.eqb n (ready d) then reply d else []));
  port_flushOutput := fun d => (Ok tt, d)
}.

(** A well-formed response with an empty body echoing opcode [op]. *)
Definition empty_response (op : byte) : bytes :=
  [xc0; x01; op; x00; x00; x00; x00; x00; x00; xc0].

(** What the ROM sends back to a sync probe: eight responses. *)
Definition sync_replies : bytes :=
  List.concat (repeat (empty_response x08) 8).

(** A device that answers the [n]-th handshake ([n = 0]: never). *)
Definition answers_at (n : nat) : scripted := mkScripted n sync_replies 0 [].

End Lines.
Import Lines.

(* ================================================================== *)
(** * Example images                                                   *)
(* ================================================================== *)

Module Examples.

(** One loaded section and two static sections added in descending
    address order. *)
Definition descending_image : Image :=
  add_section 0x40201000 [x01]
    (add_section 0x40202000 [x02]
       (add_section 0x40100000 [x00] (init (Some 0x40100000) ESP_FLASH_BASE))).

(** The same sections with the static ones added in ascending order. *)
Definition ascending_image : Image :=
  add_section 0x40202000 [x02]
    (add_section 0x40201000 [x01]
       (add_section 0x40100000 [x00] (init (Some 0x40100000) ESP_FLASH_BASE))).

(** The overlapping sections of the specification's example, 16 bytes at
    0x1000 and 16 bytes at 0x1008, in an Image whose flash base is 0. *)
Definition overlapping_image : Image :=
  add_section 0x1008 (repeat x02 16)
    (add_section 0x1000 (repeat x01 16) (init None 0)).

(** The same overlap above the default flash base. *)
Definition overlapping_flash_image : Image :=
  add_section 0x40201008 (repeat x02 16)
    (add_section 0x40201000 (repeat x01 16) (init None ESP_FLASH_BASE)).

End Examples.
Import Examples.

(* ================================================================== *)
(** * Vocabulary of the statements                                     *)
(* ================================================================== *)

(** [x] may stand before [y] in a sorted list: [y < x] is false. *)
Definition section_le (x y : section) : Prop := section_ltb y x = false.

(** The trace without the byte traffic and the output flushes: what is
    left are timeout changes, input flushes (one opens every handshake)
    and pauses. *)
Definition is_milestone (e : event) : bool :=
  match e with
  | EvRead _ | EvWrite _ | EvFlushOutput => false
  | EvSetTimeout _ | EvFlushInput | EvSleep _ => true
  end.

Definition milestones (tr : list event) : list event := filter is_milestone tr.

(** An event of plain byte traffic under the timeout [t]. *)
Definition traffic (t : option Q) (e : event) : Prop :=
  match e with
  | EvRead t' => t' = t
  | EvWrite _ => True
  | _ => False
  end.

(** A program that only reads and writes: it leaves the timeout as it
    found it and every read runs under that timeout. *)
Definition steady {D A} (m : M D A) : Prop :=
  forall s, timeout (final (m s)) = timeout s /\
            Forall (traffic (timeout s)) (trace (m s)).

(** The handshake inside one turn of the loop of [connect]. *)
Definition handshake {D} {serial : Serial D} : M D unit :=
  (flushInput ;;; flushOutput ;;; sync)%port.

(** The port at the start of turn [k] of the loop of [connect] that
    starts on [s]. *)
Fixpoint turn_start {D} {serial : Serial D} (k : nat) (s : port D) : port D :=
  match k with
  | O => s
  | S k' => final (connect_attempt (turn_start k' s))
  end.

(** Send [b] framed and read one frame of [len(b)] bytes back: the
    opening delimiter as a raw byte, the body through [read], the closing
    delimiter as a raw byte, as [command] reads a response. *)
Definition echo_frame {D} {serial : Serial D} (b : bytes) : M D (byte * bytes * byte) :=
  (write b ;;;
   head <- read_byte ;;
   body <- read (len b) ;;
   tail <- read_byte ;;
   ret (head, body, tail))%port.

(** The value range of the [I] format. *)
Definition u32 (z : Z) : Prop := 0 <= z < 2 ^ 32.

(* ================================================================== *)
(** * Loading an ELF file                                              *)
(* ================================================================== *)

Module Elf.

(** What [load_elf] reads of a section of the file: [sec['sh_type']],
    [sec['sh_flags']], [sec['sh_addr']] and [sec.data()]. *)
Record elf_section : Type := mkElfSection {
  sh_type : string;
  sh_flags : Z;
  sh_addr : Z;
  sec_data : bytes
}.

(** What [load_elf] reads of the file: [elf.header['e_entry']] and
    [elf.iter_sections()]. *)
Record elf_file : Type := mkElfFile {
  e_entry : Z;
  elf_sections : list elf_section
}.

(** [sec['sh_type'] == 'SHT_PROGBITS' and (sec['sh_flags'] & SHF_ALLOC)];
    the flag bit [SH_FLAGS.SHF_ALLOC] is a constant of the ELF library
    and is taken as a parameter. *)
Definition is_loadable (SHF_ALLOC : Z) (sec : elf_section) : bool :=
  String.eqb (sh_type sec) "SHT_PROGBITS" &&
  negb (Z.land (sh_flags sec) SHF_ALLOC =? 0).

(** [Image.load_elf(f)]. *)
Definition load_elf (SHF_ALLOC : Z) (f : elf_file) (self : Image) : Image :=
  fold_left
    (fun img sec =>
       if is_loadable SHF_ALLOC sec
       then add_section (sh_addr sec) (sec_data sec) img
       else img)
    (elf_sections f)
    (mkImage (loaded_sections self) (static_sections self)
             (Some (e_entry f)) (flash_base self)).

End Elf.
Import Elf.

(* ================================================================== *)
(** * A device that acknowledges every command                         *)
(* ================================================================== *)

Module Acking.

(** One response packet as it travels on the line: status, echoed
    opcode, body length, value and body, escaped between delimiters. *)
Definition response_frame (status op : byte) (val : Z) (body : bytes) : bytes :=
  [xc0] ++
  flat_map slip_escape ([status; op] ++ le_bytes 2 (len body) ++ le_bytes 4 val ++ body) ++
  [xc0].

(** A device that answers every frame written to it with a success
    response echoing the frame's opcode byte, carrying [value] and the
    body [00 00]. *)
Record ack_line : Type := mkAck { pending : bytes; value : Z }.

#[export] Instance ack_serial : Serial ack_line := {
  port_read := fun _ d =>
    match pending d with
    | [] => (Ok None, d)
    | c :: q => (Ok (Some c), mkAck q (value d))
    end;
  port_write := fun data d =>
    (Ok tt,
     mkAck (pending d ++
            match nth_error data 2 with
            | Some op => response_frame x01 op (value d) [x00; x00]
            | None => []
            end)
           (value d));
  port_flushInput := fun d => (Ok tt, mkAck [] (value d));
  port_flushOutput := fun d => (Ok tt, d)
}.

End Acking.
Import Acking.

(* ================================================================== *)
(** * More vocabulary                                                  *)
(* ================================================================== *)

(** The classes of a raised exception, most specific first: its own
    class and the classes it inherits from.  [struct.error] and the
    serial library's [SerialException] (a subclass of [IOError], that is
    [OSError]) are not builtin; [PyException] is an instance of
    [Exception] itself. *)
Definition exn_classes (e : exn) : list string :=
  match e with
  | NameError _ => ["NameError"; "Exception"; "BaseException"; "object"]
  | TypeError => ["TypeError"; "Exception"; "BaseException"; "object"]
  | AttributeError => ["AttributeError"; "Exception"; "BaseException"; "object"]
  | IndexError => ["IndexError"; "LookupError"; "Exception"; "BaseException"; "object"]
  | KeyError => ["KeyError"; "LookupError"; "Exception"; "BaseException"; "object"]
  | ValueError _ => ["ValueError"; "Exception"; "BaseException"; "object"]
  | StructError => ["struct.error"; "Exception"; "BaseException"; "object"]
  | SerialException => ["SerialException"; "OSError"; "Exception"; "BaseException"; "object"]
  | PyException _ => ["Exception"; "BaseException"; "object"]
  end%string.

(** [isinstance(e, cls)]: what [except cls:] catches. *)
Definition isinstance (e : exn) (cls : string) : bool :=
  existsb (String.eqb cls) (exn_classes e).

(** The frames written to the port, in order. *)
Fixpoint writes (tr : list event) : list bytes :=
  match tr with
  | [] => []
  | EvWrite data :: tr' => data :: writes tr'
  | _ :: tr' => writes tr'
  end.

(** An event that is a read of one byte. *)
Definition is_read (e : event) : Prop :=
  match e with
  | EvRead _ => True
  | _ => False
  end.

(** A program that touches the port by reading only. *)
Definition reads_only {D A} (m : M D A) : Prop :=
  forall s, Forall is_read (trace (m s)).

(** What a command with opcode [op] writes before it reads: its framed
    request when the request can be packed, nothing otherwise. *)
Definition request_write (op : option Z) (data : bytes) (chk : Z) : list event :=
  match op with
  | Some o =>
      match request_packet o data chk with
      | Ok pkt => [EvWrite (slip_frame pkt)]
      | Raise _ => []
      end
  | None => []
  end.

(** The two halves of [command]: sending the request, if there is an
    opcode, and reading the response. *)
Definition send_request {D} {serial : Serial D}
  (op : option Z) (data : bytes) (chk : Z) : M D unit :=
  match op with
  | Some o => (pkt <- lift (request_packet o data chk) ;; write pkt)%port
  | None => ret tt
  end.

Definition receive_response {D} {serial : Serial D} (op : option Z) : M D (Z * bytes) :=
  (c <- read_byte ;;
   if negb (Byte.eqb c xc0) then raise (ValueError "Invalid head of packet")
   else
     hdr <- read 8 ;;
     let resp := uint_at 0 1 hdr in
     let op_ret := uint_at 1 1 hdr in
     let len_ret := uint_at 2 2 hdr in
     let val := uint_at 4 4 hdr in
     if negb (resp =? 0x01) || op_mismatch op op_ret
     then raise (ValueError "Invalid response")
     else
       body <- read len_ret ;;
       c <- read_byte ;;
       if negb (Byte.eqb c xc0) then raise (ValueError "Invalid end of packet")
       else ret (val, body))%port.

(** [w] is the frame of the request with opcode [op], the payload
    [payload] and the checksum [chk]. *)
Definition is_request (op : Z) (payload : result bytes) (chk : result Z) (w : bytes) : Prop :=
  exists p c pkt,
    payload = Ok p /\ chk = Ok c /\ request_packet op p c = Ok pkt /\
    w = slip_frame pkt.

(** Section [x] ends at or before the address where [y] starts. *)
Definition fits (x y : section) : Prop := fst x + len (snd x) <= fst y.

(** Position [i] of the flat image based at [base] lies inside the
    section [sec]. *)
Definition covers (base : Z) (sec : section) (i : nat) : Prop :=
  fst sec - base <= Z.of_nat i < fst sec - base + len (snd sec).

(** Every section is in the list its address puts it in. *)
Definition classified (img : Image) : Prop :=
  Forall (fun sec => fst sec < flash_base img) (loaded_sections img) /\
  Forall (fun sec => flash_base img <= fst sec) (static_sections img).

(** One entry of the section table of the loader image: address, padded
    length, padded data. *)
Definition section_record (sec : section) : bytes :=
  le_bytes 4 (fst sec) ++ le_bytes 4 (len (pad4 (snd sec))) ++ pad4 (snd sec).

(* ================================================================== *)
(** * Bytes and little-endian fields                                   *)
(* ================================================================== *)

Lemma Z_of_byte_range (b : byte) : 0 <= Z_of_byte b < 256.
Proof.
  unfold Z_of_byte. pose proof (Byte.to_N_bounded b) as H. lia.
Qed.

Lemma byte_of_Z_of_byte (b : byte) : byte_of_Z (Z_of_byte b) = b.
Proof.
  unfold byte_of_Z. pose proof (Z_of_byte_range b) as H.
  rewrite Z.mod_small by exact H.
  unfold Z_of_byte. rewrite N2Z.id, Byte.of_to_N. reflexivity.
Qed.

Lemma Z_of_byte_of_Z (z : Z) : Z_of_byte (byte_of_Z z) = z mod 256.
Proof.
  unfold byte_of_Z, Z_of_byte.
  pose proof (Z.mod_pos_bound z 256 ltac:(lia)) as H.
  destruct (Byte.of_N (Z.to_N (z mod 256))) as [b|] eqn:E.
  - apply Byte.to_of_N in E. rewrite E. lia.
  - apply Byte.of_N_None_iff in E. lia.
Qed.

Lemma Z_of_byte_small (z : Z) : 0 <= z < 256 -> Z_of_byte (byte_of_Z z) = z.
Proof. intros H. rewrite Z_of_byte_of_Z. apply Z.mod_small, H. Qed.

Lemma le_int_le_bytes (n : nat) (z : Z) :
  le_int (le_bytes n z) = z mod 2 ^ (8 * Z.of_nat n).
Proof.
  revert z. induction n as [|n IH]; intros z.
  - simpl. rewrite Z.mod_1_r. reflexivity.
  - cbn [le_bytes le_int]. rewrite Z_of_byte_of_Z, IH.
    replace (8 * Z.of_nat (S n)) with (8 + 8 * Z.of_nat n) by lia.
    rewrite Z.pow_add_r by lia.
    change (2 ^ 8) with 256.
    rewrite Z.rem_mul_r by lia. reflexivity.
Qed.

Lemma le_bytes_length (n : nat) (z : Z) : List.length (le_bytes n z) = n.
Proof. revert z. induction n; intros z; simpl; [|rewrite IHn]; reflexivity. Qed.

Lemma pack_I_ok (z : Z) : 0 <= z < 2 ^ 32 -> pack_I z = Ok (le_bytes 4 z).
Proof.
  intros H. unfold pack_I, pack_uint.
  change (2 ^ (8 * Z.of_nat 4)) with (2 ^ 32).
  destruct (Z.leb_spec 0 z); [|lia].
  destruct (Z.ltb_spec z (2 ^ 32)); [|lia]. reflexivity.
Qed.

Lemma u32_le_bytes (z : Z) : 0 <= z < 2 ^ 32 -> le_int (le_bytes 4 z) = z.
Proof.
  intros H. rewrite le_int_le_bytes.
  change (2 ^ (8 * Z.of_nat 4)) with (2 ^ 32). apply Z.mod_small, H.
Qed.

(* ================================================================== *)
(** * The checksum                                                     *)
(* ================================================================== *)

Lemma lxor_byte_range (a b : Z) : 0 <= a < 256 -> 0 <= b < 256 -> 0 <= Z.lxor a b < 256.
Proof.
  intros Ha Hb. split.
  - apply Z.lxor_nonneg. lia.
  - destruct (Z.eq_dec (Z.lxor a b) 0) as [E|E]; [lia|].
    assert (Hp : 0 < Z.lxor a b) by (pose proof (proj2 (Z.lxor_nonneg a b)); lia).
    change 256 with (2 ^ 8). apply Z.log2_lt_pow2; [exact Hp|].
    eapply Z.le_lt_trans; [apply Z.log2_lxor; lia|].
    apply Z.max_lub_lt.
    + destruct (Z.eq_dec a 0) as [->|]; [simpl; lia|].
      apply Z.log2_lt_pow2; lia.
    + destruct (Z.eq_dec b 0) as [->|]; [simpl; lia|].
      apply Z.log2_lt_pow2; lia.
Qed.

Lemma fold_lxor_range (l : list byte) (acc : Z) :
  0 <= acc < 256 -> 0 <= fold_left Z.lxor (map Z_of_byte l) acc < 256.
Proof.
  revert acc. induction l as [|b l IH]; intros acc H; simpl.
  - exact H.
  - apply IH, lxor_byte_range; [exact H | apply Z_of_byte_range].
Qed.

(** C5.  The claim is that the checksum of the empty byte sequence is the
    seed.  The code folds with [functools.reduce] without an initial
    value, so on the empty sequence it raises [TypeError] whatever the
    seed: the empty case is missed. *)
Theorem checksum_empty_raises (seed : Z) : checksum [] seed = Raise TypeError.
Proof. reflexivity. Qed.

(** For a non-empty sequence the checksum is the seed XORed with every
    byte in turn. *)
Lemma checksum_nonempty (b : byte) (data : bytes) (seed : Z) :
  checksum (b :: data) seed =
  Ok (Z.lxor seed (fold_left Z.lxor (map Z_of_byte data) (Z_of_byte b))).
Proof. reflexivity. Qed.

Lemma loader_image_outcome (self : Image) :
  fst (loader_image self) = Raise StructError \/
  (joined_data (loaded_sections self) = [] /\
   fst (loader_image self) = Raise TypeError) \/
  exists b ck,
    checksum (joined_data (loaded_sections self)) ESP_CHECKSUM_MAGIC = Ok ck /\
    fst (loader_image self) = rbind (bytes_of_ints [ck]) (fun cb => Ok (b ++ cb)).
Proof.
  unfold loader_image; cbn [fst].
  assert (Hh : forall n e, image_header n e = Raise StructError \/ exists b, image_header n e = Ok b).
  { intros n e. unfold image_header, pack_B, pack_I, pack_uint.
    repeat match goal with
           | |- context [if ?c then _ else _] => destruct c; cbn [rbind]
           | |- context [match ?x with Some _ => _ | None => _ end] => destruct x; cbn [rbind]
           end; eauto. }
  assert (Hb : forall secs b, loader_body b secs = Raise StructError \/ exists b', loader_body b secs = Ok b').
  { induction secs as [|[addr data] secs IH]; intros b; cbn [loader_body]; eauto.
    unfold pack_Is, pack_I, pack_uint.
    repeat match goal with
           | |- context [if ?c then _ else _] => destruct c; cbn [rbind]
           end; eauto. }
  destruct (Hh (len (loaded_sections self)) (entrypoint self)) as [E|[b0 E]];
    rewrite E; cbn [rbind]; auto.
  destruct (Hb (loaded_sections self) b0) as [E'|[b E']]; rewrite E'; cbn [rbind]; auto.
  destruct (joined_data (loaded_sections self)) as [|c data] eqn:Ej.
  - right; left. split; reflexivity.
  - right; right. rewrite checksum_nonempty. cbn [rbind].
    eexists (b ++ bytes_repeat x00 (15 - len b mod 16)), _. split; [reflexivity|].
    destruct (bytes_of_ints [_]); cbn [rbind]; [|reflexivity].
    rewrite <- app_assoc. reflexivity.
Qed.

(** C10.  For every non-empty byte sequence and every seed in [0, 255]
    the checksum is an integer in [0, 255], so [bytes([checksum])] is one
    byte of that value and raises nothing; in [loader_image], whose seed
    is the default 0xEF, a non-empty payload leaves [struct.error] as the
    only failure, and otherwise the image ends in that checksum byte. *)
Theorem checksum_fits_one_byte (data : bytes) (seed : Z) :
  data <> [] -> 0 <= seed <= 255 ->
  exists v,
    checksum data seed = Ok v /\
    0 <= v <= 255 /\
    bytes_of_ints [v] = Ok [byte_of_Z v] /\
    Z_of_byte (byte_of_Z v) = v /\
    forall self : Image,
      joined_data (loaded_sections self) = data ->
      seed = ESP_CHECKSUM_MAGIC ->
      fst (loader_image self) = Raise StructError \/
      exists b, fst (loader_image self) = Ok (b ++ [byte_of_Z v]).
Proof.
  intros Hne Hseed. destruct data as [|c data]; [congruence|].
  rewrite checksum_nonempty.
  set (v := Z.lxor seed _).
  assert (Hv : 0 <= v < 256).
  { apply lxor_byte_range; [lia|]. apply fold_lxor_range, Z_of_byte_range. }
  assert (Hb : bytes_of_ints [v] = Ok [byte_of_Z v]).
  { cbn [bytes_of_ints].
    destruct (Z.leb_spec 0 v); [|lia]. destruct (Z.ltb_spec v 256); [|lia].
    reflexivity. }
  exists v. repeat split; try lia; try exact Hb.
  - apply Z_of_byte_small, Hv.
  - intros self Hj ->.
    destruct (loader_image_outcome self) as [E|[[E _]|(b & ck & Hck & E)]]; auto.
    + congruence.
    + right. exists b. rewrite E. rewrite Hj, checksum_nonempty in Hck.
      fold v in Hck. injection Hck as <-. rewrite Hb. reflexivity.
Qed.

Lemma checksum_fits_one_byte_witness :
  exists v, checksum [x01; x02] ESP_CHECKSUM_MAGIC = Ok v /\ 0 <= v <= 255.
Proof.
  destruct (checksum_fits_one_byte [x01; x02] ESP_CHECKSUM_MAGIC) as (v & H1 & H2 & _).
  - discriminate.
  - unfold ESP_CHECKSUM_MAGIC; lia.
  - exists v. split; assumption.
Defined.

(* ================================================================== *)
(** * Framing                                                          *)
(* ================================================================== *)

Lemma replace1_flat_map (old : byte) (new s : bytes) :
  replace1 old new s = flat_map (fun c => if Byte.eqb c old then new else [c]) s.
Proof. induction s as [|c s IH]; simpl; [|rewrite IH]; reflexivity. Qed.

Lemma replace1_app (old : byte) (new s t : bytes) :
  replace1 old new (s ++ t) = replace1 old new s ++ replace1 old new t.
Proof.
  induction s as [|c s IH]; simpl; [reflexivity|].
  rewrite IH, app_assoc. reflexivity.
Qed.

(** The two replacements of [write], the [0xDB] one first, escape every
    payload byte exactly once. *)
Lemma escape_payload (packet : bytes) :
  replace1 xc0 [xdb; xdc] (replace1 xdb [xdb; xdd] packet) =
  flat_map slip_escape packet.
Proof.
  induction packet as [|c packet IH]; [reflexivity|].
  cbn [replace1 flat_map]. rewrite replace1_app, IH. f_equal.
  unfold slip_escape.
  destruct (Byte.eqb c xdb) eqn:Edb.
  - apply Byte.byte_dec_bl in Edb. subst c. reflexivity.
  - cbn [replace1]. destruct (Byte.eqb c xc0); reflexivity.
Qed.

(** C4, as stated, fails: with the [0xC0] substitution first and the
    [0xDB] one second, the payload [C0] would be framed as
    [C0 DB DD DC C0]; [write] sends [C0 DB DC C0]. *)
Lemma spec_order_differs :
  spec_slip_frame [xc0] = [xc0; xdb; xdd; xdc; xc0] /\
  slip_frame [xc0] = [xc0; xdb; xdc; xc0] /\
  slip_frame [xc0] <> spec_slip_frame [xc0] /\
  trace (write [xc0] (mkPort ([] : bytes) None)) <> [EvWrite (spec_slip_frame [xc0])].
Proof. repeat split; try reflexivity; discriminate. Qed.

(** C4, amended.  For every payload, [write] makes one port write of the
    payload between two [0xC0] delimiters, every payload byte [0xC0]
    turned into [0xDB 0xDC], every payload byte [0xDB] into [0xDB 0xDD]
    and every other byte kept; the [0xDB] substitution is done first and
    the [0xC0] one second, and the delimiters are added after both. *)
Theorem write_frames_escaped_payload
  {D : Type} {serial : Serial D} (packet : bytes) (s : port D) :
  trace (write packet s) = [EvWrite ([xc0] ++ flat_map slip_escape packet ++ [xc0])] /\
  slip_frame packet =
    [xc0] ++ replace1 xc0 [xdb; xdc] (replace1 xdb [xdb; xdd] packet) ++ [xc0] /\
  slip_escape xc0 = [xdb; xdc] /\
  slip_escape xdb = [xdb; xdd] /\
  (forall c, c <> xc0 -> c <> xdb -> slip_escape c = [c]).
Proof.
  repeat split.
  - unfold write, write_bytes, trace, slip_frame. rewrite escape_payload.
    destruct (port_write _ (dev s)). reflexivity.
  - intros c Hc0 Hdb. unfold slip_escape.
    destruct (Byte.eqb c xc0) eqn:E0; [apply Byte.byte_dec_bl in E0; contradiction|].
    destruct (Byte.eqb c xdb) eqn:E1; [apply Byte.byte_dec_bl in E1; contradiction|].
    reflexivity.
Qed.

Lemma bind_ok {D A B} (m : M D A) (f : A -> M D B) s a s1 t1 :
  m s = (Ok a, s1, t1) ->
  bind m f s = (outcome (f a s1), final (f a s1), t1 ++ trace (f a s1)).
Proof.
  intros H. unfold bind, outcome, final, trace. rewrite H.
  destruct (f a s1) as [[r s2] t2]. reflexivity.
Qed.

Lemma bind_raise {D A B} (m : M D A) (f : A -> M D B) s e s1 t1 :
  m s = (Raise e, s1, t1) -> bind m f s = (Raise e, s1, t1).
Proof. intros H. unfold bind. rewrite H. reflexivity. Qed.

(** [slip_read] on the looped-back line undoes [slip_escape]. *)
Lemma slip_read_escape (c : byte) (rest : bytes) (tmo : option Q) :
  exists tr,
    slip_read (mkPort (slip_escape c ++ rest) tmo) = (Ok c, mkPort rest tmo, tr).
Proof.
  unfold slip_escape.
  destruct (Byte.eqb c xc0) eqn:E0.
  { apply Byte.byte_dec_bl in E0. subst c. eexists. reflexivity. }
  destruct (Byte.eqb c xdb) eqn:E1.
  { apply Byte.byte_dec_bl in E1. subst c. eexists. reflexivity. }
  eexists. unfold slip_read, bind, read_byte. cbn. rewrite E1. reflexivity.
Qed.

Lemma read_n_escaped (b rest : bytes) (tmo : option Q) :
  exists tr,
    read_n (List.length b) (mkPort (flat_map slip_escape b ++ rest) tmo) =
    (Ok b, mkPort rest tmo, tr).
Proof.
  induction b as [|c b IH]; [eexists; reflexivity|].
  cbn [List.length read_n flat_map]. rewrite <- app_assoc.
  destruct (slip_read_escape c (flat_map slip_escape b ++ rest) tmo) as [t1 H1].
  destruct IH as [t2 H2].
  eexists. rewrite (bind_ok _ _ _ _ _ _ H1), (bind_ok _ _ _ _ _ _ H2).
  reflexivity.
Qed.

(** C3.  For every byte sequence [b] (the bytes [0xC0] and [0xDB]
    included), what [write] frames and sends is read back as [b]:
    on a line that returns what was written, after [write(b)] the next
    raw byte is the delimiter [0xC0], [read(len(b))] returns exactly [b],
    the byte after it is the closing delimiter, and nothing is left. *)
Theorem framing_round_trip (b : bytes) (tmo : option Q) :
  outcome (echo_frame b (mkPort ([] : bytes) tmo)) = Ok (xc0, b, xc0) /\
  dev (final (echo_frame b (mkPort ([] : bytes) tmo))) = [].
Proof.
  unfold echo_frame.
  destruct (read_n_escaped b [xc0] tmo) as [tr Hr].
  unfold read, len. rewrite Nat2Z.id.
  assert (Hw : write b (mkPort ([] : bytes) tmo) =
               (Ok tt, mkPort ([xc0] ++ flat_map slip_escape b ++ [xc0]) tmo,
                [EvWrite (slip_frame b)])).
  { unfold write, write_bytes, slip_frame. rewrite escape_payload. reflexivity. }
  rewrite (bind_ok _ _ _ _ _ _ Hw).
  assert (Hh : read_byte (mkPort ([xc0] ++ flat_map slip_escape b ++ [xc0]) tmo) =
               (Ok xc0, mkPort (flat_map slip_escape b ++ [xc0]) tmo, [EvRead tmo]))
    by reflexivity.
  rewrite (bind_ok _ _ _ _ _ _ Hh), (bind_ok _ _ _ _ _ _ Hr).
  split; reflexivity.
Qed.

(* ================================================================== *)
(** * Image serialization                                              *)
(* ================================================================== *)

Lemma byte_eqb_sym (x y : byte) : Byte.eqb x y = Byte.eqb y x.
Proof.
  destruct (Byte.eqb x y) eqn:E.
  - apply Byte.byte_dec_bl in E. subst. symmetry. apply Byte.byte_dec_lb. reflexivity.
  - destruct (Byte.eqb y x) eqn:E'; [|reflexivity].
    apply Byte.byte_dec_bl in E'. subst.
    rewrite (Byte.byte_dec_lb (eq_refl x)) in E. discriminate.
Qed.

Lemma bytes_ltb_asym (a b : bytes) : bytes_ltb a b = true -> bytes_ltb b a = false.
Proof.
  revert b. induction a as [|x a IH]; intros [|y b] H; simpl in *; try congruence.
  rewrite (byte_eqb_sym y x). destruct (Byte.eqb x y); [apply IH, H|].
  apply Z.ltb_lt in H. apply Z.ltb_ge. lia.
Qed.

Lemma section_ltb_asym (s t : section) : section_ltb s t = true -> section_ltb t s = false.
Proof.
  unfold section_ltb. rewrite (Z.eqb_sym (fst t) (fst s)).
  destruct (fst s =? fst t); [apply bytes_ltb_asym|].
  intros H. apply Z.ltb_lt in H. apply Z.ltb_ge. lia.
Qed.

Lemma insert_perm (x : section) (l : list section) : Permutation (x :: l) (insert x l).
Proof.
  induction l as [|y l IH]; simpl; [reflexivity|].
  destruct (section_ltb y x); [|reflexivity].
  rewrite perm_swap. apply perm_skip, IH.
Qed.

Lemma sort_perm (l : list section) : Permutation l (sort l).
Proof.
  induction l as [|x l IH]; simpl; [reflexivity|].
  rewrite <- insert_perm. apply perm_skip, IH.
Qed.

Lemma insert_sorted (x : section) (l : list section) :
  Sorted section_le l -> Sorted section_le (insert x l).
Proof.
  induction l as [|y l IH]; intros Hs; simpl.
  - repeat constructor.
  - destruct (section_ltb y x) eqn:E.
    + inversion Hs as [|? ? Hs' Hhd]; subst. constructor; [apply IH, Hs'|].
      destruct l as [|z l]; simpl.
      * constructor. apply section_ltb_asym, E.
      * destruct (section_ltb z x); constructor.
        -- inversion Hhd; assumption.
        -- apply section_ltb_asym, E.
    + constructor; [exact Hs|]. constructor. exact E.
Qed.

Lemma sort_sorted (l : list section) : Sorted section_le (sort l).
Proof.
  induction l as [|x l IH]; simpl; [constructor | apply insert_sorted, IH].
Qed.

Lemma sort_of_sorted (l : list section) : Sorted section_le l -> sort l = l.
Proof.
  induction l as [|x l IH]; intros Hs; [reflexivity|].
  inversion Hs as [|? ? Hs' Hhd]; subst. simpl. rewrite (IH Hs').
  destruct l as [|y l]; [reflexivity|]. simpl.
  inversion Hhd as [|? ? Hle]; subst. unfold section_le in Hle. rewrite Hle.
  reflexivity.
Qed.

Lemma section_le_addr (x y : section) : section_le x y -> fst x <= fst y.
Proof.
  unfold section_le, section_ltb.
  destruct (Z.eqb_spec (fst y) (fst x)); [lia|].
  intros H. apply Z.ltb_ge in H. lia.
Qed.

(** The head of a sorted list has the lowest address. *)
Lemma sorted_head_lowest (x : section) (l : list section) :
  Sorted section_le (x :: l) -> Forall (fun s => fst x <= fst s) (x :: l).
Proof.
  revert x. induction l as [|y l IH]; intros x Hs.
  - constructor; [lia | constructor].
  - inversion Hs as [|? ? Hs' Hhd]; subst.
    inversion Hhd as [|? ? Hle]; subst.
    apply section_le_addr in Hle.
    constructor; [lia|].
    eapply Forall_impl; [|exact (IH y Hs')].
    cbn beta. intros s Hy. lia.
Qed.

Lemma sort_nonempty (l : list section) : l <> [] -> sort l <> [].
Proof.
  intros Hne E. apply Hne. apply Permutation_nil.
  rewrite <- E. symmetry. apply sort_perm.
Qed.

Lemma sort_two (a1 a2 : Z) (d1 d2 : bytes) (l : list section) :
  a1 < a2 -> Permutation l [(a1, d1); (a2, d2)] -> sort l = [(a1, d1); (a2, d2)].
Proof.
  intros Hlt Hp.
  assert (Hl : l = [(a1, d1); (a2, d2)] \/ l = [(a2, d2); (a1, d1)]).
  { pose proof (Permutation_length Hp) as Hlen.
    destruct l as [|x [|y [|z l]]]; try discriminate.
    apply Permutation_sym, Permutation_length_2_inv in Hp.
    destruct Hp as [E|E]; injection E as -> ->; auto. }
  assert (E1 : section_ltb (a2, d2) (a1, d1) = false).
  { unfold section_ltb; cbn [fst snd].
    destruct (Z.eqb_spec a2 a1); [lia|]. apply Z.ltb_ge. lia. }
  assert (E2 : section_ltb (a1, d1) (a2, d2) = true).
  { unfold section_ltb; cbn [fst snd].
    destruct (Z.eqb_spec a1 a2); [lia|]. apply Z.ltb_lt. lia. }
  destruct Hl as [-> | ->]; cbn [sort fold_right insert].
  - rewrite E1. reflexivity.
  - rewrite E2. reflexivity.
Qed.

(** C6, as stated, fails: on the two overlapping sections of the
    example, 16 bytes at 0x1000 and 16 bytes at 0x1008, [static_image]
    returns normally, the second section's bytes placed right after the
    first's, eight bytes above its address.  The same with the addresses
    taken above the default flash base. *)
Lemma overlap_is_not_rejected :
  static_sections overlapping_image =
    [(0x1000, repeat x01 16); (0x1008, repeat x02 16)] /\
  fst (static_image overlapping_image) =
    Ok (0x1000, repeat x01 16 ++ repeat x02 16) /\
  fst (static_image overlapping_flash_image) =
    Ok (0x1000, repeat x01 16 ++ repeat x02 16).
Proof. repeat split; reflexivity. Qed.

(** C6, amended.  For every non-empty list of static sections,
    overlapping or not, [static_image] raises nothing and returns the
    lowest section address less the flash base together with the flat
    bytes; for
    two sections of which the higher starts inside the lower, no filler
    is written and the result is the lower section's bytes followed
    directly by all of the higher section's bytes. *)
Theorem static_image_accepts_overlap (self : Image) :
  static_sections self <> [] ->
  exists base b,
    fst (static_image self) = Ok (base - flash_base self, b) /\
    In base (map fst (static_sections self)) /\
    Forall (fun sec => base <= fst sec) (static_sections self) /\
    forall a1 a2 d1 d2,
      a1 < a2 < a1 + len d1 ->
      Permutation (static_sections self) [(a1, d1); (a2, d2)] ->
      base = a1 /\ b = d1 ++ d2.
Proof.
  intros Hne. unfold static_image. cbn [static_sections flash_base].
  pose proof (sort_perm (static_sections self)) as Hperm.
  pose proof (sort_sorted (static_sections self)) as Hsorted.
  destruct (sort (static_sections self)) as [|[base d] l] eqn:E.
  - exfalso. exact (sort_nonempty _ Hne E).
  - exists base, (static_body base [] ((base, d) :: l)). cbn [fst]. split; [reflexivity|].
    split.
    { apply (in_map fst _ (base, d)).
      apply (Permutation_in _ (Permutation_sym Hperm)). left. reflexivity. }
    split.
    { apply (Permutation_Forall (Permutation_sym Hperm)).
      exact (sorted_head_lowest _ _ Hsorted). }
    intros a1 a2 d1 d2 [Hlt Hov] Hp.
    rewrite (sort_two a1 a2 d1 d2 _ Hlt Hp) in E.
    injection E as <- <- <-. split; [reflexivity|].
    cbn [static_body app]. unfold bytes_repeat.
    replace (Z.to_nat (a1 - a1 - len [])) with O by (unfold len; simpl; lia).
    replace (Z.to_nat (a2 - a1 - len (repeat xff 0 ++ d1))) with O
      by (unfold len in *; simpl; lia).
    reflexivity.
Qed.

Lemma static_image_accepts_overlap_witness :
  exists base b,
    fst (static_image overlapping_image) = Ok (base - 0, b) /\
    base = 0x1000 /\ b = repeat x01 16 ++ repeat x02 16.
Proof.
  destruct (static_image_accepts_overlap overlapping_image) as (base & b & H & _ & _ & Hov).
  - discriminate.
  - exists base, b. split; [exact H|].
    apply (Hov 0x1000 0x1008 (repeat x01 16) (repeat x02 16)).
    + unfold len; simpl; lia.
    + reflexivity.
Defined.

(** C9, as stated, fails: [static_image] sorts [static_sections] in
    place, so an Image whose static sections were added in descending
    address order comes back from [static_image], and from
    [combined_image], with their order changed. *)
Lemma static_image_reorders :
  static_sections descending_image =
    [(0x40202000, [x02]); (0x40201000, [x01])] /\
  static_sections (snd (static_image descending_image)) =
    [(0x40201000, [x01]); (0x40202000, [x02])] /\
  static_sections (snd (static_image descending_image)) <>
    static_sections descending_image /\
  static_sections (snd (combined_image descending_image)) <>
    static_sections descending_image.
Proof. repeat split; try reflexivity; discriminate. Qed.

Lemma static_image_state (self : Image) :
  snd (static_image self) =
  mkImage (loaded_sections self) (sort (static_sections self))
          (entrypoint self) (flash_base self).
Proof.
  unfold static_image. cbn [static_sections].
  destruct (sort (static_sections self)) as [|[base d] l]; reflexivity.
Qed.

Lemma combined_image_state (self : Image) :
  snd (combined_image self) = self \/
  snd (combined_image self) = snd (static_image self).
Proof.
  unfold combined_image, ibind.
  destruct (loader_image self) as [[limg|e] self1] eqn:El;
    assert (Hs : self1 = self) by (unfold loader_image in El; congruence);
    subst self1; [|left; reflexivity].
  right. destruct (static_image self) as [[st|e] self2]; reflexivity.
Qed.

(** [combined_image] calls [static_image], and so sorts, exactly when
    its [loader_image] step returns; when that step raises, the same
    exception leaves [combined_image] and the Image is untouched. *)
Lemma combined_image_cases (self : Image) :
  (forall limg,
     fst (loader_image self) = Ok limg ->
     snd (combined_image self) = snd (static_image self)) /\
  (forall e,
     fst (loader_image self) = Raise e ->
     fst (combined_image self) = Raise e /\ snd (combined_image self) = self).
Proof.
  unfold combined_image, ibind.
  destruct (loader_image self) as [[limg|e] self1] eqn:El;
    assert (Hs : self1 = self) by (unfold loader_image in El; congruence);
    subst self1; cbn [fst]; split.
  - intros limg' _. destruct (static_image self) as [[st|e] self2]; reflexivity.
  - intros e H. discriminate.
  - intros limg H. discriminate.
  - intros e' H. injection H as <-. split; reflexivity.
Qed.

(** C9, amended.  [loader_image] leaves the Image as it was.
    [static_image] and [combined_image] leave [loaded_sections],
    [entrypoint] and [flash_base] as they were and keep the same static
    sections, but [static_image] sorts [static_sections] in place
    (ascending by address, then by data).  [combined_image] sorts them
    too whenever its [loader_image] step returns, and leaves the Image
    untouched when that step raises.  The order of [static_sections] is
    kept when it was sorted already. *)
Theorem serialization_keeps_image_up_to_sorting (self : Image) :
  snd (loader_image self) = self /\
  (loaded_sections (snd (static_image self)) = loaded_sections self /\
   entrypoint (snd (static_image self)) = entrypoint self /\
   flash_base (snd (static_image self)) = flash_base self /\
   static_sections (snd (static_image self)) = sort (static_sections self) /\
   Permutation (static_sections self) (static_sections (snd (static_image self))) /\
   Sorted section_le (static_sections (snd (static_image self)))) /\
  (loaded_sections (snd (combined_image self)) = loaded_sections self /\
   entrypoint (snd (combined_image self)) = entrypoint self /\
   flash_base (snd (combined_image self)) = flash_base self /\
   Permutation (static_sections self) (static_sections (snd (combined_image self))) /\
   (static_sections (snd (combined_image self)) = static_sections self \/
    static_sections (snd (combined_image self)) = sort (static_sections self))) /\
  (forall limg,
     fst (loader_image self) = Ok limg ->
     snd (combined_image self) = snd (static_image self) /\
     static_sections (snd (combined_image self)) = sort (static_sections self) /\
     Sorted section_le (static_sections (snd (combined_image self)))) /\
  (forall e,
     fst (loader_image self) = Raise e ->
     fst (combined_image self) = Raise e /\ snd (combined_image self) = self) /\
  (Sorted section_le (static_sections self) ->
   snd (static_image self) = self /\ snd (combined_image self) = self).
Proof.
  split; [reflexivity|].
  split.
  { rewrite static_image_state. cbn [loaded_sections entrypoint flash_base static_sections].
    repeat split; [apply sort_perm | apply sort_sorted]. }
  split.
  { destruct (combined_image_state self) as [E|E]; rewrite E.
    - repeat split; [reflexivity | left; reflexivity].
    - rewrite static_image_state.
      cbn [loaded_sections entrypoint flash_base static_sections].
      repeat split; [apply sort_perm | right; reflexivity]. }
  split.
  { intros limg Hl.
    rewrite (proj1 (combined_image_cases self) limg Hl), static_image_state.
    cbn [static_sections]. repeat split. apply sort_sorted. }
  split; [exact (proj2 (combined_image_cases self))|].
  intros Hs.
  assert (E : snd (static_image self) = self).
  { rewrite static_image_state, (sort_of_sorted _ Hs). destruct self; reflexivity. }
  split; [exact E|].
  destruct (combined_image_state self) as [E'|E']; rewrite E'; [reflexivity | exact E].
Qed.

Lemma serialization_keeps_image_up_to_sorting_witness :
  (snd (static_image ascending_image) = ascending_image /\
   snd (combined_image ascending_image) = ascending_image) /\
  static_sections (snd (combined_image descending_image)) =
    sort (static_sections descending_image).
Proof.
  split.
  - apply (proj2 (proj2 (proj2 (proj2 (proj2
             (serialization_keeps_image_up_to_sorting ascending_image)))))).
    repeat constructor.
  - apply (proj1 (proj2 (proj2 (proj2
             (serialization_keeps_image_up_to_sorting descending_image))))
             [xe9; x01; x00; x00; x00; x00; x10; "@"%byte;
              x00; x00; x10; "@"%byte; x04; x00; x00; x00;
              x00; x00; x00; x00; x00; x00; x00; x00;
              x00; x00; x00; x00; x00; x00; x00; xef]).
    reflexivity.
Defined.

(* ================================================================== *)
(** * Programs that only read and write                                *)
(* ================================================================== *)

Section Steady.
Context {D : Type} {serial : Serial D}.

Lemma steady_ret {A} (a : A) : steady (D := D) (ret a).
Proof. intros s. split; [reflexivity | constructor]. Qed.

Lemma steady_raise {A} (e : exn) : steady (D := D) (A := A) (raise e).
Proof. intros s. split; [reflexivity | constructor]. Qed.

Lemma steady_lift {A} (r : result A) : steady (D := D) (lift r).
Proof. intros s. split; [reflexivity | constructor]. Qed.

Lemma steady_bind {A B} (m : M D A) (f : A -> M D B) :
  steady m -> (forall a, steady (f a)) -> steady (bind m f).
Proof.
  intros Hm Hf s. unfold bind, final, trace.
  destruct (Hm s) as [Ht Htr].
  destruct (m s) as [[[a|e] s1] t1]; cbn [final trace fst snd] in *.
  - destruct (Hf a s1) as [Ht' Htr'].
    destruct (f a s1) as [[r s2] t2]; cbn [final trace fst snd] in *.
    split; [congruence|]. apply Forall_app. split; [exact Htr|].
    rewrite <- Ht. exact Htr'.
  - split; assumption.
Qed.

Lemma steady_read_byte : steady (D := D) read_byte.
Proof.
  intros s. unfold read_byte, final, trace.
  destruct (port_read (timeout s) (dev s)) as [[[c|]|e] d]; cbn;
    (split; [reflexivity | repeat constructor]).
Qed.

Lemma steady_write_bytes (data : bytes) : steady (D := D) (write_bytes data).
Proof.
  intros s. unfold write_bytes, final, trace.
  destruct (port_write data (dev s)) as [r d]; cbn.
  split; [reflexivity | repeat constructor].
Qed.

Lemma steady_for_each {A} (l : list A) (body : A -> M D unit) :
  (forall x, steady (body x)) -> steady (for_each l body).
Proof.
  intros Hb. induction l as [|x l IH]; cbn [for_each].
  - apply steady_ret.
  - apply steady_bind; [apply Hb | intros _; exact IH].
Qed.

Ltac steady_step :=
  match goal with
  | |- steady (bind _ _) => apply steady_bind; [|intros ?]
  | |- steady (ret _) => apply steady_ret
  | |- steady (raise _) => apply steady_raise
  | |- steady (lift _) => apply steady_lift
  | |- steady read_byte => apply steady_read_byte
  | |- steady (write_bytes _) => apply steady_write_bytes
  | |- steady (for_each _ _) => apply steady_for_each; intros ?
  | |- steady (if ?c then _ else _) => destruct c
  | |- steady (match ?o with Some _ => _ | None => _ end) => destruct o
  end.

Lemma steady_slip_read : steady (D := D) slip_read.
Proof. unfold slip_read. repeat steady_step. Qed.

Lemma steady_read (length : Z) : steady (D := D) (read length).
Proof.
  unfold read. induction (Z.to_nat length) as [|n IH]; cbn [read_n].
  - apply steady_ret.
  - apply steady_bind; [apply steady_slip_read | intros c].
    apply steady_bind; [exact IH | intros cs; apply steady_ret].
Qed.

Lemma steady_write (packet : bytes) : steady (D := D) (write packet).
Proof. apply steady_write_bytes. Qed.

Lemma steady_command (op : option Z) (data : bytes) (chk : Z) :
  steady (D := D) (command op data chk).
Proof.
  unfold command.
  repeat first [ apply steady_read | apply steady_write | steady_step ].
Qed.

Lemma steady_simple_command (op : option Z) (data : bytes) (chk : Z) :
  steady (D := D) (simple_command op data chk).
Proof.
  unfold simple_command.
  repeat first [ apply steady_command | steady_step ].
Qed.

Lemma steady_sync : steady (D := D) sync.
Proof. unfold sync. repeat first [ apply steady_command | steady_step ]. Qed.

Lemma steady_flash_block (data : bytes) (seq : Z) :
  steady (D := D) (flash_block data seq).
Proof.
  unfold flash_block. repeat first [ apply steady_simple_command | steady_step ].
Qed.

Lemma steady_mem_block (data : bytes) (seq : Z) :
  steady (D := D) (mem_block data seq).
Proof.
  unfold mem_block. repeat first [ apply steady_simple_command | steady_step ].
Qed.

(** The traffic of a steady program has no milestone in it. *)
Lemma traffic_no_milestone (t : option Q) (tr : list event) :
  Forall (traffic t) tr -> milestones tr = [].
Proof.
  induction 1 as [|e tr He _ IH]; [reflexivity|].
  unfold milestones in *. cbn [filter]. rewrite IH.
  destruct e; cbn in *; try contradiction; reflexivity.
Qed.

Lemma milestones_app (t1 t2 : list event) :
  milestones (t1 ++ t2) = milestones t1 ++ milestones t2.
Proof. apply filter_app. Qed.

(* ================================================================== *)
(** * The timeout around flash-begin                                   *)
(* ================================================================== *)

(** The [try] body of [flash_begin]. *)
Lemma flash_begin_unfold (size offset : Z) (s : port D) :
  forall r s1 t1,
    (p <- lift (flash_begin_payload size offset) ;;
     simple_command (Some ESP_FLASH_BEGIN) p 0)%port (mkPort (dev s) (Some 10%Q)) =
      (r, s1, t1) ->
    flash_begin size offset s =
      (r, mkPort (dev s1) (timeout s),
       [EvSetTimeout (Some 10%Q)] ++ t1 ++ [EvSetTimeout (timeout s)]).
Proof.
  intros r s1 t1 H. unfold flash_begin.
  unfold bind at 1. cbn [get_timeout].
  unfold bind at 1. cbn [set_timeout].
  unfold try_finally. rewrite H. cbn [set_timeout]. reflexivity.
Qed.

(** C8.  [flash_begin] sets the timeout to 10 s, runs the flash-begin
    command under it (every read of the command is made with timeout
    10 s), and as its last act sets the timeout back to the value it had
    before the call, whether the command returned or raised; the outcome
    of the call is the outcome of the command.  [flash_image], which
    starts with [flash_begin], also ends with the timeout it started
    with, on every exit path and whether or not the module-level name
    [esp] is bound. *)
Theorem flash_begin_restores_timeout (size offset : Z) (s : port D) :
  exists r s1 t1,
    (p <- lift (flash_begin_payload size offset) ;;
     simple_command (Some ESP_FLASH_BEGIN) p 0)%port (mkPort (dev s) (Some 10%Q)) =
      (r, s1, t1) /\
    outcome (flash_begin size offset s) = r /\
    trace (flash_begin size offset s) =
      [EvSetTimeout (Some 10%Q)] ++ t1 ++ [EvSetTimeout (timeout s)] /\
    Forall (traffic (Some 10%Q)) t1 /\
    timeout (final (flash_begin size offset s)) = timeout s /\
    forall mode offx img, timeout (final (flash_image mode offx img s)) = timeout s.
Proof.
  set (body := (p <- lift (flash_begin_payload size offset) ;;
                simple_command (Some ESP_FLASH_BEGIN) p 0)%port).
  assert (Hbody : forall sz off, steady (D := D)
            (p <- lift (flash_begin_payload sz off) ;;
             simple_command (Some ESP_FLASH_BEGIN) p 0)%port).
  { intros sz off. apply steady_bind; [apply steady_lift | intros p].
    apply steady_simple_command. }
  assert (Hkeep : forall sz off, timeout (final (flash_begin sz off s)) = timeout s).
  { intros sz off.
    destruct ((p <- lift (flash_begin_payload sz off) ;;
               simple_command (Some ESP_FLASH_BEGIN) p 0)%port
                (mkPort (dev s) (Some 10%Q))) as [[r s1] t1] eqn:E.
    rewrite (flash_begin_unfold _ _ _ _ _ _ E). reflexivity. }
  destruct (body (mkPort (dev s) (Some 10%Q))) as [[r s1] t1] eqn:E.
  exists r, s1, t1. split; [reflexivity|].
  rewrite (flash_begin_unfold _ _ _ _ _ _ E).
  repeat split.
  - destruct (Hbody size offset (mkPort (dev s) (Some 10%Q))) as [_ Htr].
    fold body in Htr. rewrite E in Htr. exact Htr.
  - intros mode offx img. unfold flash_image.
    specialize (Hkeep (len img) offx).
    unfold bind at 1.
    destruct (flash_begin (len img) offx s) as [[[v|e] s2] t2];
      cbn [final fst snd] in Hkeep |- *; [|exact Hkeep].
    match goal with
    | |- context [?m s2] =>
        assert (Hst : steady m)
    end.
    { repeat first [ apply steady_flash_block | steady_step ]. }
    destruct (Hst s2) as [Ht _].
    match goal with
    | |- context [?m s2] => destruct (m s2) as [[r' s3] t3]
    end.
    cbn [final fst snd] in *. congruence.
Qed.

End Steady.

(* ================================================================== *)
(** * The begin commands on the wire                                   *)
(* ================================================================== *)

Lemma pack_uint_ok (n : nat) (z : Z) :
  0 <= z < 2 ^ (8 * Z.of_nat n) -> pack_uint n z = Ok (le_bytes n z).
Proof.
  intros H. unfold pack_uint.
  destruct (Z.leb_spec 0 z); [|lia].
  destruct (Z.ltb_spec z (2 ^ (8 * Z.of_nat n))); [|lia]. reflexivity.
Qed.

Lemma pack_IIII_ok (a b c d : Z) :
  u32 a -> u32 b -> u32 c -> u32 d ->
  pack_Is [a; b; c; d] =
  Ok (le_bytes 4 a ++ le_bytes 4 b ++ le_bytes 4 c ++ le_bytes 4 d).
Proof.
  intros Ha Hb Hc Hd. cbn [pack_Is].
  rewrite !pack_I_ok by assumption. cbn [rbind]. rewrite app_nil_r. reflexivity.
Qed.

Lemma request_packet_ok (op : Z) (p : bytes) (chk : Z) :
  0 <= op < 256 -> len p < 65536 -> u32 chk ->
  request_packet op p chk =
  Ok (le_bytes 1 0 ++ le_bytes 1 op ++ le_bytes 2 (len p) ++ le_bytes 4 chk ++ p).
Proof.
  intros Hop Hlen Hchk. unfold request_packet, pack_B, pack_H.
  rewrite (pack_uint_ok 1 0) by (cbn; lia).
  rewrite (pack_uint_ok 1 op) by (cbn; lia).
  rewrite (pack_uint_ok 2 (len p)) by (unfold len in *; cbn; lia).
  rewrite (pack_I_ok chk) by exact Hchk.
  reflexivity.
Qed.

Section Wire.
Context {D : Type} {serial : Serial D}.

Lemma bind_trace_head {A B} (m : M D A) (f : A -> M D B) s e r :
  trace (m s) = e :: r -> exists r', trace (bind m f s) = e :: r'.
Proof.
  unfold bind, trace. intros H.
  destruct (m s) as [[[a|e'] s1] t1]; cbn [snd] in *; subst t1.
  - destruct (f a s1) as [[r2 s2] t2]. eexists. reflexivity.
  - eexists. reflexivity.
Qed.

(** A command with an opcode starts by writing its framed request. *)
Lemma command_writes_request (o : Z) (data : bytes) (chk : Z) (pkt : bytes) (s : port D) :
  request_packet o data chk = Ok pkt ->
  exists rest, trace (command (Some o) data chk s) = EvWrite (slip_frame pkt) :: rest.
Proof.
  intros Hp. unfold command. eapply bind_trace_head.
  unfold bind, lift, write, write_bytes, trace. rewrite Hp.
  destruct (port_write (slip_frame pkt) (dev s)). reflexivity.
Qed.

Lemma simple_command_writes_request (o : Z) (data : bytes) (chk : Z) (pkt : bytes) (s : port D) :
  request_packet o data chk = Ok pkt ->
  exists rest, trace (simple_command (Some o) data chk s) = EvWrite (slip_frame pkt) :: rest.
Proof.
  intros Hp. destruct (command_writes_request o data chk pkt s Hp) as [r Hr].
  unfold simple_command. eapply bind_trace_head. exact Hr.
Qed.

(** C2, amended.  Every flash download-begin declares block count 0x200
    and block size 0x400, constants of [flash_begin] that no argument
    changes.  A RAM download-begin declares in its block-size field the
    [blocksize] argument it is given, so there the value is the caller's
    (the call written in [write_memory_image] passes [ESP_RAM_BLOCK],
    0x1800).  In both cases the request is the first thing written to
    the port, and the payload follows the 8-byte request header. *)
Theorem begin_block_size_field (size blocks blocksize offset : Z) (s : port D) :
  u32 size -> u32 blocks -> u32 blocksize -> u32 offset ->
  (exists p pkt rest,
     flash_begin_payload size offset = Ok p /\
     request_packet ESP_FLASH_BEGIN p 0 = Ok pkt /\
     skipn 8 pkt = p /\
     trace (flash_begin size offset s) =
       EvSetTimeout (Some 10%Q) :: EvWrite (slip_frame pkt) :: rest /\
     u32_at 4 p = 0x200 /\
     u32_at 8 p = 0x400) /\
  (exists p pkt rest,
     mem_begin_payload size blocks blocksize offset = Ok p /\
     request_packet ESP_MEM_BEGIN p 0 = Ok pkt /\
     skipn 8 pkt = p /\
     trace (mem_begin size blocks blocksize offset s) =
       EvWrite (slip_frame pkt) :: rest /\
     u32_at 8 p = blocksize).
Proof.
  intros Hsize Hblocks Hbs Hoff.
  assert (H200 : u32 0x200) by (unfold u32; lia).
  assert (H400 : u32 0x400) by (unfold u32; lia).
  assert (H0 : u32 0) by (unfold u32; lia).
  split.
  - pose proof (pack_IIII_ok size 0x200 0x400 offset Hsize H200 H400 Hoff) as Hp.
    set (p := le_bytes 4 size ++ le_bytes 4 0x200 ++ le_bytes 4 0x400 ++ le_bytes 4 offset) in *.
    assert (Hlen : len p = 16) by reflexivity.
    pose proof (request_packet_ok ESP_FLASH_BEGIN p 0
                  ltac:(unfold ESP_FLASH_BEGIN; lia) ltac:(lia) H0) as Hpkt.
    set (body := (q <- lift (flash_begin_payload size offset) ;;
                  simple_command (Some ESP_FLASH_BEGIN) q 0)%port).
    destruct (body (mkPort (dev s) (Some 10%Q))) as [[r s1] t1] eqn:E.
    assert (Ht1 : exists rest, t1 = EvWrite (slip_frame
                    (le_bytes 1 0 ++ le_bytes 1 ESP_FLASH_BEGIN ++
                     le_bytes 2 (len p) ++ le_bytes 4 0 ++ p)) :: rest).
    { destruct (simple_command_writes_request _ _ _ _ (mkPort (dev s) (Some 10%Q)) Hpkt)
        as [rest Hrest].
      exists rest. change t1 with (trace (r, s1, t1)). rewrite <- E.
      unfold body, flash_begin_payload.
      rewrite (bind_ok _ _ _ p (mkPort (dev s) (Some 10%Q)) []) by (unfold lift; rewrite Hp; reflexivity).
      cbn [trace snd app]. exact Hrest. }
    destruct Ht1 as [rest ->].
    exists p, (le_bytes 1 0 ++ le_bytes 1 ESP_FLASH_BEGIN ++
               le_bytes 2 (len p) ++ le_bytes 4 0 ++ p),
           (rest ++ [EvSetTimeout (timeout s)]).
    split; [exact Hp|]. split; [exact Hpkt|]. split; [reflexivity|].
    split; [rewrite (flash_begin_unfold _ _ _ _ _ _ E); reflexivity|].
    split; [exact (u32_le_bytes 0x200 H200) | exact (u32_le_bytes 0x400 H400)].
  - pose proof (pack_IIII_ok size blocks blocksize offset Hsize Hblocks Hbs Hoff) as Hp.
    set (p := le_bytes 4 size ++ le_bytes 4 blocks ++ le_bytes 4 blocksize ++ le_bytes 4 offset) in *.
    assert (Hlen : len p = 16) by reflexivity.
    pose proof (request_packet_ok ESP_MEM_BEGIN p 0
                  ltac:(unfold ESP_MEM_BEGIN; lia) ltac:(lia) H0) as Hpkt.
    destruct (simple_command_writes_request _ _ _ _ s Hpkt) as [rest Hrest].
    exists p, (le_bytes 1 0 ++ le_bytes 1 ESP_MEM_BEGIN ++
               le_bytes 2 (len p) ++ le_bytes 4 0 ++ p), rest.
    split; [exact Hp|]. split; [exact Hpkt|]. split; [reflexivity|].
    split; [|exact (u32_le_bytes blocksize Hbs)].
    unfold mem_begin, mem_begin_payload.
    rewrite (bind_ok _ _ _ p s []) by (unfold lift; rewrite Hp; reflexivity).
    cbn [trace snd app]. exact Hrest.
Qed.

End Wire.

(** C2, as stated, fails: the RAM download-begin that [mem_begin] sends
    for one block of one byte with the RAM block size, as
    [write_memory_image] writes the call, declares block size 0x1800,
    not 0x400. *)
Lemma ram_begin_declares_ram_block :
  exists p pkt,
    mem_begin_payload 1 1 ESP_RAM_BLOCK 0x40100000 = Ok p /\
    request_packet ESP_MEM_BEGIN p 0 = Ok pkt /\
    hd_error (trace (mem_begin 1 1 ESP_RAM_BLOCK 0x40100000
                       (mkPort (answers_at 0) None))) =
      Some (EvWrite (slip_frame pkt)) /\
    u32_at 8 p = 0x1800 /\
    u32_at 8 p <> 0x400.
Proof.
  eexists. eexists.
  split; [reflexivity|]. split; [reflexivity|]. split; [reflexivity|].
  split; [reflexivity | discriminate].
Qed.

Lemma begin_block_size_field_witness :
  exists p,
    flash_begin_payload 0x1000 0 = Ok p /\ u32_at 8 p = 0x400.
Proof.
  destruct (begin_block_size_field 0x1000 1 ESP_RAM_BLOCK 0
              (mkPort (answers_at 0) None))
    as [(p & pkt & rest & Hp & _ & _ & _ & _ & H) _];
    try (unfold u32, ESP_RAM_BLOCK; lia).
  exists p. split; assumption.
Defined.

(* ================================================================== *)
(** * Download to RAM                                                  *)
(* ================================================================== *)

(** [size] is not among the names the module binds, however it is
    used. *)
Lemma size_is_unbound (mode : run_mode) :
  load_global mode "size" = Raise (NameError "size").
Proof. destruct mode as [|[|]]; reflexivity. Qed.

(** The module-level name [esp] gives the flash block size when the
    module runs as a script on a port, and is unbound otherwise. *)
Lemma esp_block_size (mode : run_mode) :
  rbind (load_global mode "esp") attr_ESP_FLASH_BLOCK =
  match mode with
  | Script true => Ok 0x400
  | _ => Raise (NameError "esp")
  end.
Proof. destruct mode as [|[|]]; reflexivity. Qed.

Section Download.
Context {D : Type} {serial : Serial D}.

(** C1.  The claim is that every section gets its download-begin and its
    blocks, and that one download-finish follows.  The code reads the
    unbound name [size] while it evaluates the arguments of the first
    [mem_begin]: whenever there is at least one section,
    [write_memory_image] raises [NameError] with nothing sent, the port
    untouched and no download-finish issued, whether the module is
    imported or run as a script, with or without a port. *)
Theorem write_memory_image_raises_NameError
  (mode : run_mode) (sections : list (Z * bytes)) (entrypoint : Z) (s : port D) :
  sections <> [] ->
  write_memory_image mode sections entrypoint s = (Raise (NameError "size"), s, []).
Proof.
  intros Hne. destruct sections as [|sec sections]; [congruence|].
  destruct mode as [|[|]]; reflexivity.
Qed.

(** With no section at all the loop body never runs, and the call is the
    download-finish alone. *)
Lemma write_memory_image_no_section (mode : run_mode) (entrypoint : Z) (s : port D) :
  outcome (write_memory_image mode [] entrypoint s) =
    rbind (outcome (mem_finish entrypoint s)) (fun _ => Ok tt) /\
  trace (write_memory_image mode [] entrypoint s) = trace (mem_finish entrypoint s).
Proof.
  unfold write_memory_image, enumerate. cbn [enumerate_from for_each].
  rewrite (bind_ok _ _ s tt s []) by reflexivity.
  cbn [app]. unfold bind, outcome, trace, final, ret.
  destruct (mem_finish entrypoint s) as [[[v|e] s1] t1]; cbn [fst snd rbind];
    rewrite ?app_nil_r; split; reflexivity.
Qed.

(** The run flag of the download-finish payload is 1 exactly when the
    entrypoint is 0. *)
Lemma mem_finish_run_flag (entrypoint : Z) :
  u32 entrypoint ->
  exists p, mem_finish_payload entrypoint = Ok p /\
            u32_at 4 p = entrypoint /\
            (u32_at 0 p = 1 <-> entrypoint = 0) /\
            (u32_at 0 p = 0 <-> entrypoint <> 0).
Proof.
  intros He. unfold mem_finish_payload. cbn [pack_Is].
  assert (Hf : u32 (if entrypoint =? 0 then 1 else 0))
    by (destruct (entrypoint =? 0); unfold u32; lia).
  rewrite !pack_I_ok by assumption. cbn [rbind].
  eexists. split; [reflexivity|].
  split; [exact (u32_le_bytes entrypoint He)|].
  change (u32_at 0 (le_bytes 4 (if entrypoint =? 0 then 1 else 0) ++
                    le_bytes 4 entrypoint ++ []))
    with (le_int (le_bytes 4 (if entrypoint =? 0 then 1 else 0))).
  rewrite (u32_le_bytes _ Hf).
  destruct (Z.eqb_spec entrypoint 0); split; intros; try lia; try congruence.
Qed.

End Download.

Lemma write_memory_image_raises_NameError_witness :
  write_memory_image (Script true) [(0x40100000, [x00])] 0 (mkPort (answers_at 0) None) =
  (Raise (NameError "size"), mkPort (answers_at 0) None, []).
Proof.
  apply write_memory_image_raises_NameError. discriminate.
Defined.

(* ================================================================== *)
(** * Connecting                                                       *)
(* ================================================================== *)

Section Connect.
Context {D : Type} {serial : Serial D}.

(** A handshake opens with one flush of the input buffer, which is its
    only milestone, and leaves the timeout alone. *)
Lemma handshake_shape (s : port D) :
  milestones (trace (handshake s)) = [EvFlushInput] /\
  timeout (final (handshake s)) = timeout s.
Proof.
  unfold handshake, bind, flushInput, flushOutput, final, trace.
  destruct (port_flushInput (dev s)) as [[[]|e] d1]; cbn [dev timeout fst snd];
    [|split; reflexivity].
  destruct (port_flushOutput d1) as [[[]|e] d2]; cbn [dev timeout fst snd];
    [|split; reflexivity].
  destruct (steady_sync (mkPort d2 (timeout s))) as [Ht Htr].
  destruct (sync (mkPort d2 (timeout s))) as [[r s3] t3].
  cbn [final trace fst snd timeout] in *.
  split; [|exact Ht].
  cbn [app milestones filter is_milestone]. fold (milestones t3).
  rewrite (traffic_no_milestone _ _ Htr). reflexivity.
Qed.

(** One turn of the loop: a handshake that raises is followed by the
    pause, a handshake that returns by the 5 s timeout. *)
Lemma connect_attempt_cases (s : port D) :
  (exists e,
     outcome (handshake s) = Raise e /\
     connect_attempt s =
       (Ok false, final (handshake s), trace (handshake s) ++ [EvSleep 0.1%Q])) \/
  (outcome (handshake s) = Ok tt /\
   connect_attempt s =
     (Ok true, mkPort (dev (final (handshake s))) (Some 5%Q),
      trace (handshake s) ++ [EvSetTimeout (Some 5%Q)])).
Proof.
  unfold connect_attempt, handshake, try_except, bind, flushInput, flushOutput,
    set_timeout, sleep, ret, outcome, final, trace.
  destruct (port_flushInput (dev s)) as [[[]|e] d1]; cbn [dev timeout fst snd app];
    [|left; eexists; split; reflexivity].
  destruct (port_flushOutput d1) as [[[]|e] d2]; cbn [dev timeout fst snd app];
    [|left; eexists; split; reflexivity].
  destruct (sync (mkPort d2 (timeout s))) as [[[[]|e] s3] t3];
    cbn [dev timeout fst snd app].
  - right. split; reflexivity.
  - left. eexists. split; reflexivity.
Qed.

Lemma turn_start_shift (k : nat) (s : port D) :
  turn_start k (final (connect_attempt s)) = turn_start (S k) s.
Proof.
  induction k as [|k IH]; [reflexivity|].
  cbn [turn_start] in *. rewrite IH. reflexivity.
Qed.

Lemma connect_loop_spec (n : nat) (s : port D) :
  (exists k,
     (k < n)%nat /\
     (forall i, (i < k)%nat -> exists e, outcome (handshake (turn_start i s)) = Raise e) /\
     outcome (handshake (turn_start k s)) = Ok tt /\
     outcome (connect_loop n s) = Ok tt /\
     final (connect_loop n s) = turn_start (S k) s /\
     timeout (final (connect_loop n s)) = Some 5%Q /\
     milestones (trace (connect_loop n s)) =
       List.concat (repeat [EvFlushInput; EvSleep 0.1%Q] k) ++
       [EvFlushInput; EvSetTimeout (Some 5%Q)]) \/
  ((forall i, (i < n)%nat -> exists e, outcome (handshake (turn_start i s)) = Raise e) /\
   outcome (connect_loop n s) = Raise (PyException "Failed to connect") /\
   final (connect_loop n s) = turn_start n s /\
   timeout (final (connect_loop n s)) = timeout s /\
   milestones (trace (connect_loop n s)) =
     List.concat (repeat [EvFlushInput; EvSleep 0.1%Q] n)).
Proof.
  revert s. induction n as [|n IH]; intros s.
  - right. split; [intros i Hi; lia|]. repeat split; reflexivity.
  - destruct (handshake_shape s) as [Hm Ht].
    cbn [connect_loop].
    destruct (connect_attempt_cases s) as [(e & He & Ha) | (Hok & Ha)].
    + (* this turn fails: pause, then the remaining turns *)
      assert (Hs1 : final (connect_attempt s) = final (handshake s))
        by (rewrite Ha; reflexivity).
      rewrite (bind_ok _ _ _ _ _ _ Ha). cbn [outcome final trace fst snd].
      rewrite milestones_app, milestones_app, Hm.
      specialize (IH (final (handshake s))).
      rewrite <- Hs1 in IH.
      destruct IH as [(k & Hk & Hfail & Hsucc & Hout & Hfin & Htmo & Hmil)
                     | (Hfail & Hout & Hfin & Htmo & Hmil)].
      * left. exists (S k). split; [lia|].
        split.
        { intros [|i] Hi; [exists e; exact He|].
          rewrite <- turn_start_shift. apply Hfail. lia. }
        rewrite turn_start_shift in Hsucc, Hfin.
        rewrite Hs1 in Hout, Hfin, Htmo, Hmil.
        repeat split; try assumption.
        rewrite Hmil. reflexivity.
      * right.
        split.
        { intros [|i] Hi; [exists e; exact He|].
          rewrite <- turn_start_shift. apply Hfail. lia. }
        rewrite turn_start_shift in Hfin.
        rewrite Hs1 in Hout, Hfin, Htmo, Hmil.
        repeat split; try assumption.
        -- rewrite Htmo. exact Ht.
        -- rewrite Hmil. reflexivity.
    + (* this turn succeeds: return *)
      left. exists O. split; [lia|].
      split; [intros i Hi; lia|].
      split; [exact Hok|].
      rewrite (bind_ok _ _ _ _ _ _ Ha). cbn [outcome final trace fst snd ret turn_start].
      rewrite Ha. cbn [final fst snd timeout].
      repeat split.
      rewrite app_nil_r, milestones_app, Hm. reflexivity.
Qed.

(** C7, amended.  [connect] first sets the timeout to 0.5 s and then
    makes handshake attempts, at most 10.  An attempt that raises,
    whatever it raises, is followed by a 0.1 s pause and the next
    attempt.  At the first attempt that returns, [connect] sets the
    timeout to 5 s and returns: when that is attempt [k + 1], exactly
    [k + 1] handshakes were opened and [k] pauses made.  When all 10
    attempts raise, [connect] raises [Exception('Failed to connect')],
    an instance of the base class [Exception] and not of
    [ConnectionError], with the timeout still 0.5 s. *)
Theorem connect_retries (s : port D) :
  (exists k,
     (k < 10)%nat /\
     (forall i, (i < k)%nat ->
        exists e, outcome (handshake (turn_start i (mkPort (dev s) (Some 0.5%Q)))) = Raise e) /\
     outcome (handshake (turn_start k (mkPort (dev s) (Some 0.5%Q)))) = Ok tt /\
     outcome (connect s) = Ok tt /\
     timeout (final (connect s)) = Some 5%Q /\
     milestones (trace (connect s)) =
       [EvSetTimeout (Some 0.5%Q)] ++
       List.concat (repeat [EvFlushInput; EvSleep 0.1%Q] k) ++
       [EvFlushInput; EvSetTimeout (Some 5%Q)]) \/
  ((forall i, (i < 10)%nat ->
      exists e, outcome (handshake (turn_start i (mkPort (dev s) (Some 0.5%Q)))) = Raise e) /\
   outcome (connect s) = Raise (PyException "Failed to connect") /\
   timeout (final (connect s)) = Some 0.5%Q /\
   milestones (trace (connect s)) =
     [EvSetTimeout (Some 0.5%Q)] ++
     List.concat (repeat [EvFlushInput; EvSleep 0.1%Q] 10) /\
   (forall e,
      outcome (connect s) = Raise e ->
      e = PyException "Failed to connect" /\
      isinstance e "Exception" = true /\
      isinstance e "ConnectionError" = false)).
Proof.
  unfold connect.
  rewrite (bind_ok _ _ s tt (mkPort (dev s) (Some 0.5%Q)) [EvSetTimeout (Some 0.5%Q)])
    by reflexivity.
  cbn [outcome final trace fst snd].
  change (milestones ([EvSetTimeout (Some 0.5%Q)] ++ ?t))
    with (EvSetTimeout (Some 0.5%Q) :: milestones t).
  destruct (connect_loop_spec 10 (mkPort (dev s) (Some 0.5%Q)))
    as [(k & Hk & Hfail & Hsucc & Hout & _ & Htmo & Hmil)
       | (Hfail & Hout & _ & Htmo & Hmil)].
  - left. exists k. unfold outcome, final, trace in *.
    rewrite Hmil. repeat split; assumption.
  - right. unfold outcome, final, trace in *.
    rewrite Hmil.
    split; [exact Hfail|]. split; [exact Hout|]. split; [exact Htmo|].
    split; [reflexivity|].
    intros e He. rewrite Hout in He. injection He as <-.
    repeat split; reflexivity.
Qed.

End Connect.

(** C7, as stated, fails: on a device that never answers, all ten
    attempts fail and what [connect] raises is the plain
    [Exception('Failed to connect')]; it is not an instance of
    [ConnectionError], so [except ConnectionError:] would not catch
    it. *)
Lemma connect_failure_is_not_ConnectionError :
  outcome (connect (mkPort (answers_at 0) None)) =
    Raise (PyException "Failed to connect") /\
  isinstance (PyException "Failed to connect") "ConnectionError" = false /\
  ~ (exists e, outcome (connect (mkPort (answers_at 0) None)) = Raise e /\
               isinstance e "ConnectionError" = true).
Proof.
  assert (H : outcome (connect (mkPort (answers_at 0) None)) =
              Raise (PyException "Failed to connect"))
    by (vm_compute; reflexivity).
  split; [exact H|]. split; [reflexivity|].
  intros (e & He & Hi). rewrite H in He. injection He as <-. discriminate.
Qed.

(** A device that answers the third handshake: [connect] returns after
    exactly three handshakes and two pauses, with the timeout at 5 s. *)
Example connect_third_attempt :
  outcome (connect (mkPort (answers_at 3) None)) = Ok tt /\
  timeout (final (connect (mkPort (answers_at 3) None))) = Some 5%Q /\
  milestones (trace (connect (mkPort (answers_at 3) None))) =
    [EvSetTimeout (Some 0.5%Q);
     EvFlushInput; EvSleep 0.1%Q;
     EvFlushInput; EvSleep 0.1%Q;
     EvFlushInput; EvSetTimeout (Some 5%Q)].
Proof. repeat split; vm_compute; reflexivity. Qed.

(** A device that never answers: ten handshakes, ten pauses, then the
    failure. *)
Example connect_never_answered :
  outcome (connect (mkPort (answers_at 0) None)) =
    Raise (PyException "Failed to connect") /\
  List.length (filter (fun e => match e with EvFlushInput => true | _ => false end)
                 (trace (connect (mkPort (answers_at 0) None)))) = 10%nat /\
  List.length (filter (fun e => match e with EvSleep _ => true | _ => false end)
                 (trace (connect (mkPort (answers_at 0) None)))) = 10%nat.
Proof. repeat split; vm_compute; reflexivity. Qed.

(** A flash-begin that fails on a silent device still puts the timeout
    back. *)
Example flash_begin_failure_restores :
  outcome (flash_begin 0x1000 0 (mkPort (answers_at 0) (Some 5%Q))) = Raise IndexError /\
  timeout (final (flash_begin 0x1000 0 (mkPort (answers_at 0) (Some 5%Q)))) = Some 5%Q.
Proof. split; vm_compute; reflexivity. Qed.

(* ================================================================== *)
(** * Slicing into blocks                                              *)
(* ================================================================== *)

Lemma chunks_from_concat {A} (n fuel : nat) (l : list A) :
  (0 < n)%nat -> (List.length l <= fuel)%nat ->
  List.concat (chunks_from fuel n l) = l.
Proof.
  intros Hn. revert l. induction fuel as [|fuel IH]; intros l Hl.
  - destruct l; [reflexivity | simpl in Hl; lia].
  - destruct l as [|x l]; [reflexivity|].
    cbn [chunks_from List.concat]. rewrite IH.
    + apply firstn_skipn.
    + rewrite length_skipn. cbn [List.length] in *. lia.
Qed.

(** X1.  For a positive block size, the blocks [chunks] yields, put
    end to end, are the input: nothing is lost, repeated or reordered. *)
Theorem chunks_concat {A} (l : list A) (n : nat) :
  (0 < n)%nat -> List.concat (chunks l n) = l.
Proof. intros Hn. apply chunks_from_concat; [exact Hn | lia]. Qed.

Lemma chunks_concat_witness :
  List.concat (chunks [x01; x02; x03; x04; x05] 2) = [x01; x02; x03; x04; x05].
Proof. apply chunks_concat. lia. Defined.

Lemma chunks_from_sizes {A} (n fuel : nat) (l : list A) :
  (0 < n)%nat ->
  Forall (fun c => (1 <= List.length c <= n)%nat) (chunks_from fuel n l).
Proof.
  intros Hn. revert l. induction fuel as [|fuel IH]; intros l; [constructor|].
  destruct l as [|x l]; [constructor|].
  cbn [chunks_from]. constructor; [|apply IH].
  rewrite length_firstn. cbn [List.length]. lia.
Qed.

Lemma ceil_div_step (a n : Z) : 0 < n -> ceil_div a n = 1 + ceil_div (a - n) n.
Proof.
  intros Hn. unfold ceil_div.
  replace (- a) with (- (a - n) + (-1) * n) by lia.
  rewrite Z.div_add by lia. lia.
Qed.

Lemma ceil_div_small (a n : Z) : 0 < a <= n -> ceil_div a n = 1.
Proof.
  intros H. unfold ceil_div.
  assert (E : - a / n = -1); [|lia].
  symmetry. apply (Z.div_unique (- a) n (-1) (n - a)); lia.
Qed.

Lemma chunks_from_count {A} (n fuel : nat) (l : list A) :
  (0 < n)%nat -> (List.length l <= fuel)%nat ->
  len (chunks_from fuel n l) = ceil_div (len l) (Z.of_nat n).
Proof.
  intros Hn. revert l. induction fuel as [|fuel IH]; intros l Hl.
  - destruct l; [reflexivity | simpl in Hl; lia].
  - destruct l as [|x l]; [reflexivity|].
    cbn [chunks_from]. unfold len in *. cbn [List.length].
    rewrite Nat2Z.inj_succ, IH by (rewrite length_skipn; cbn [List.length] in *; lia).
    rewrite length_skipn. cbn [List.length] in *.
    destruct (Nat.le_gt_cases (S (List.length l)) n) as [Hle|Hgt].
    + replace (S (List.length l) - n)%nat with O by lia.
      rewrite (ceil_div_small (Z.of_nat (S (List.length l)))) by lia. reflexivity.
    + rewrite (ceil_div_step (Z.of_nat (S (List.length l)))) by lia.
      rewrite Nat2Z.inj_sub by lia. lia.
Qed.

(** X2.  For a positive block size [n], every block [chunks] yields has
    at least one and at most [n] elements, and there are exactly
    [ceil(len / n)] blocks: the count that the source computes with
    [math.ceil] for the download-begin. *)
Theorem chunks_sizes_and_count {A} (l : list A) (n : nat) :
  (0 < n)%nat ->
  Forall (fun c => (1 <= List.length c <= n)%nat) (chunks l n) /\
  len (chunks l n) = ceil_div (len l) (Z.of_nat n).
Proof.
  intros Hn. split.
  - apply chunks_from_sizes, Hn.
  - apply chunks_from_count; [exact Hn | lia].
Qed.

Lemma chunks_sizes_and_count_witness :
  len (chunks (repeat x00 13) 4) = ceil_div 13 4.
Proof. apply (chunks_sizes_and_count (repeat x00 13) 4). lia. Defined.

Lemma chunks_from_full {A} (n fuel : nat) (l : list A) (i : nat) (c : list A) :
  (0 < n)%nat ->
  nth_error (chunks_from fuel n l) i = Some c ->
  (S i < List.length (chunks_from fuel n l))%nat ->
  List.length c = n.
Proof.
  intros Hn. revert l i. induction fuel as [|fuel IH]; intros l i Hc Hi.
  - simpl in Hi. lia.
  - destruct l as [|x l]; [simpl in Hi; lia|].
    cbn [chunks_from] in *. destruct i as [|i].
    + cbn [nth_error] in Hc. injection Hc as <-.
      cbn [List.length] in Hi.
      destruct (chunks_from fuel n (skipn n (x :: l))) as [|c' cs] eqn:E;
        [simpl in Hi; lia|].
      assert (Hs : skipn n (x :: l) <> []).
      { intros Hs. rewrite Hs in E. destruct fuel; discriminate. }
      rewrite length_firstn.
      assert (List.length (skipn n (x :: l)) <> 0)%nat
        by (destruct (skipn n (x :: l)); [congruence | simpl; lia]).
      rewrite length_skipn in *. lia.
    + cbn [nth_error] in Hc. cbn [List.length] in Hi.
      apply (IH _ i Hc). lia.
Qed.

(** X3.  For a positive block size [n], every block but the last has
    exactly [n] elements: only the final block may be short. *)
Theorem chunks_all_but_last_full {A} (l : list A) (n i : nat) (c : list A) :
  (0 < n)%nat ->
  nth_error (chunks l n) i = Some c ->
  (S i < List.length (chunks l n))%nat ->
  List.length c = n.
Proof. intros Hn. apply chunks_from_full, Hn. Qed.

Lemma chunks_all_but_last_full_witness :
  List.length [x01; x02] = 2%nat.
Proof.
  apply (chunks_all_but_last_full [x01; x02; x03; x04; x05] 2 0 [x01; x02]).
  - lia.
  - reflexivity.
  - simpl. lia.
Defined.

(** [enumerate] numbers the elements from 0, in order. *)
Lemma enumerate_from_nth {A} (l : list A) (start : Z) (i : nat) :
  nth_error (enumerate_from start l) i =
  option_map (fun x => (start + Z.of_nat i, x)) (nth_error l i).
Proof.
  revert start i. induction l as [|x l IH]; intros start [|i]; cbn; try reflexivity.
  - rewrite Z.add_0_r. reflexivity.
  - rewrite IH. destruct (nth_error l i); cbn; [|reflexivity].
    do 2 f_equal. lia.
Qed.

(* ================================================================== *)
(** * More on the checksum                                             *)
(* ================================================================== *)

Lemma fold_lxor_shift (l : list Z) (u v : Z) :
  fold_left Z.lxor l (Z.lxor u v) = Z.lxor u (fold_left Z.lxor l v).
Proof.
  revert v. induction l as [|x l IH]; intros v; [reflexivity|].
  cbn [fold_left]. rewrite Z.lxor_assoc. apply IH.
Qed.

(** X4.  The checksum of a sequence cut into two non-empty parts is
    the checksum of the second part seeded with the checksum of the
    first: [checksum(a + b, seed) = checksum(b, checksum(a, seed))]. *)
Theorem checksum_split (a b : bytes) (seed : Z) :
  a <> [] -> b <> [] ->
  checksum (a ++ b) seed = rbind (checksum a seed) (fun s => checksum b s).
Proof.
  intros Ha Hb. destruct a as [|x a]; [congruence|].
  destruct b as [|y b]; [congruence|].
  cbn [app]. rewrite !checksum_nonempty. cbn [rbind]. rewrite checksum_nonempty.
  f_equal. rewrite map_app, fold_left_app. cbn [map fold_left].
  rewrite fold_lxor_shift, Z.lxor_assoc. reflexivity.
Qed.

Lemma checksum_split_witness :
  checksum ([x01; x02] ++ [x03]) ESP_CHECKSUM_MAGIC =
  rbind (checksum [x01; x02] ESP_CHECKSUM_MAGIC) (fun s => checksum [x03] s).
Proof. apply checksum_split; discriminate. Defined.

(** X5.  Whenever the checksum of [data] from [seed] is a value [c],
    the checksum of the same [data] from [c] is [seed] again: folding
    the same bytes in twice cancels. *)
Theorem checksum_twice (data : bytes) (seed c : Z) :
  checksum data seed = Ok c -> checksum data c = Ok seed.
Proof.
  destruct data as [|x data]; [discriminate|].
  rewrite !checksum_nonempty. intros H. injection H as <-.
  f_equal. rewrite Z.lxor_assoc, Z.lxor_nilpotent, Z.lxor_0_r. reflexivity.
Qed.

Lemma checksum_twice_witness :
  checksum [x01; x02] 236 = Ok ESP_CHECKSUM_MAGIC.
Proof. apply checksum_twice. reflexivity. Defined.

(* ================================================================== *)
(** * More on framing                                                  *)
(* ================================================================== *)

Lemma slip_escape_shape (c : byte) :
  ~ In xc0 (slip_escape c) /\ (1 <= List.length (slip_escape c) <= 2)%nat.
Proof.
  unfold slip_escape.
  destruct (Byte.eqb c xc0) eqn:E0.
  { split; [|simpl; lia]. intros [H|[H|[]]]; discriminate. }
  destruct (Byte.eqb c xdb) eqn:E1.
  { split; [|simpl; lia]. intros [H|[H|[]]]; discriminate. }
  split; [|simpl; lia]. intros [H|[]]. subst c. discriminate.
Qed.

(** X6.  The frame [write] sends is a [0xC0] byte, a body and a
    [0xC0] byte, and no byte of the body is [0xC0]: the delimiter occurs
    at the two ends only, whatever the payload.  The body is at least as
    long as the payload and at most twice as long. *)
Theorem frame_delimiters_only_at_ends (packet : bytes) :
  exists body,
    slip_frame packet = [xc0] ++ body ++ [xc0] /\
    ~ In xc0 body /\
    (List.length packet <= List.length body <= 2 * List.length packet)%nat.
Proof.
  exists (flat_map slip_escape packet).
  split; [unfold slip_frame; rewrite escape_payload; reflexivity|].
  induction packet as [|c packet [IHin IHlen]]; [split; [intros []|simpl; lia]|].
  cbn [flat_map]. destruct (slip_escape_shape c) as [Hc Hl]. split.
  - intros H. apply in_app_or in H. tauto.
  - rewrite length_app. cbn [List.length]. lia.
Qed.

(* ================================================================== *)
(** * Classifying and loading sections                                 *)
(* ================================================================== *)

Lemma add_section_lists (addr : Z) (data : bytes) (self : Image) :
  loaded_sections (add_section addr data self) =
    loaded_sections self ++ (if addr <? flash_base self then [(addr, data)] else []) /\
  static_sections (add_section addr data self) =
    static_sections self ++ (if addr <? flash_base self then [] else [(addr, data)]) /\
  entrypoint (add_section addr data self) = entrypoint self /\
  flash_base (add_section addr data self) = flash_base self.
Proof.
  unfold add_section. destruct (addr <? flash_base self);
    cbn [loaded_sections static_sections entrypoint flash_base];
    rewrite ?app_nil_r; repeat split; reflexivity.
Qed.

Lemma load_loop_lists (SHF_ALLOC : Z) (secs : list elf_section) (img : Image) :
  let picked := map (fun sec => (sh_addr sec, sec_data sec))
                    (filter (is_loadable SHF_ALLOC) secs) in
  let img' := fold_left
                (fun img sec =>
                   if is_loadable SHF_ALLOC sec
                   then add_section (sh_addr sec) (sec_data sec) img
                   else img) secs img in
  loaded_sections img' =
    loaded_sections img ++ filter (fun sec => fst sec <? flash_base img) picked /\
  static_sections img' =
    static_sections img ++ filter (fun sec => negb (fst sec <? flash_base img)) picked /\
  entrypoint img' = entrypoint img /\
  flash_base img' = flash_base img.
Proof.
  cbv zeta. revert img. induction secs as [|sec secs IH]; intros img.
  - cbn. rewrite !app_nil_r. repeat split; reflexivity.
  - cbn [fold_left filter]. destruct (is_loadable SHF_ALLOC sec).
    + destruct (IH (add_section (sh_addr sec) (sec_data sec) img))
        as (Hl & Hs & He & Hf).
      destruct (add_section_lists (sh_addr sec) (sec_data sec) img)
        as (Al & As & Ae & Af).
      rewrite Hl, Hs, He, Hf, Al, As, Ae, Af.
      cbn [map filter fst].
      destruct (sh_addr sec <? flash_base img); cbn [negb];
        rewrite <- ?app_assoc, ?app_nil_r; repeat split; reflexivity.
    + apply IH.
Qed.

(** X7.  [load_elf] sets the entrypoint to the file's entry address,
    keeps the flash base, and appends to [loaded_sections] exactly the
    file's allocated PROGBITS sections whose address is below the flash
    base and to [static_sections] exactly those at or above it, each list
    in file order; every other section of the file is ignored. *)
Theorem load_elf_sections (SHF_ALLOC : Z) (f : elf_file) (self : Image) :
  let picked := map (fun sec => (sh_addr sec, sec_data sec))
                    (filter (is_loadable SHF_ALLOC) (elf_sections f)) in
  loaded_sections (load_elf SHF_ALLOC f self) =
    loaded_sections self ++ filter (fun sec => fst sec <? flash_base self) picked /\
  static_sections (load_elf SHF_ALLOC f self) =
    static_sections self ++ filter (fun sec => negb (fst sec <? flash_base self)) picked /\
  entrypoint (load_elf SHF_ALLOC f self) = Some (e_entry f) /\
  flash_base (load_elf SHF_ALLOC f self) = flash_base self.
Proof.
  cbv zeta. unfold load_elf.
  destruct (load_loop_lists SHF_ALLOC (elf_sections f)
              (mkImage (loaded_sections self) (static_sections self)
                       (Some (e_entry f)) (flash_base self)))
    as (Hl & Hs & He & Hf).
  cbn [loaded_sections static_sections entrypoint flash_base] in *.
  repeat split; assumption.
Qed.

(** X8.  The classification is an invariant of building an Image: a
    fresh Image is classified, and [add_section] and [load_elf] keep it
    so, that is, every loaded section lies below the flash base and every
    static section at or above it. *)
Theorem classification_invariant :
  (forall entry base, classified (init entry base)) /\
  (forall addr data self, classified self -> classified (add_section addr data self)) /\
  (forall SHF_ALLOC f self, classified self -> classified (load_elf SHF_ALLOC f self)).
Proof.
  split; [|split].
  - intros entry base. split; constructor.
  - intros addr data self [Hl Hs].
    destruct (add_section_lists addr data self) as (Al & As & _ & Af).
    unfold classified. rewrite Al, As, Af.
    destruct (Z.ltb_spec addr (flash_base self)); rewrite ?app_nil_r; split;
      try assumption; apply Forall_app; split; try assumption;
      constructor; cbn; try lia; constructor.
  - intros SHF_ALLOC f self [Hl Hs].
    destruct (load_loop_lists SHF_ALLOC (elf_sections f)
                (mkImage (loaded_sections self) (static_sections self)
                         (Some (e_entry f)) (flash_base self)))
      as (El & Es & _ & Ef).
    cbn [loaded_sections static_sections flash_base] in El, Es, Ef.
    unfold classified, load_elf. rewrite El, Es, Ef. split; apply Forall_app; split;
      try assumption; apply Forall_forall; intros sec Hin;
      apply filter_In in Hin; destruct Hin as [_ Hc].
    + apply Z.ltb_lt, Hc.
    + apply negb_true_iff, Z.ltb_ge in Hc. exact Hc.
Qed.

Lemma classification_invariant_witness :
  classified descending_image.
Proof.
  unfold descending_image.
  repeat apply (proj1 (proj2 classification_invariant)).
  apply (proj1 classification_invariant).
Defined.

(* ================================================================== *)
(** * The loader image                                                 *)
(* ================================================================== *)

(** X9.  The padding of a section's data adds fewer than four zero
    bytes after the data and brings its length to a multiple of 4; data
    whose length is a multiple of 4 already, the empty data included,
    gets none. *)
Theorem pad4_shape (data : bytes) :
  exists k,
    pad4 data = data ++ repeat x00 k /\
    (k < 4)%nat /\
    (len (pad4 data)) mod 4 = 0 /\
    ((len data) mod 4 = 0 -> k = O).
Proof.
  unfold pad4, bytes_repeat.
  exists (Z.to_nat (3 - (len data - 1) mod 4)).
  pose proof (Z.mod_pos_bound (len data - 1) 4 ltac:(lia)) as Hb.
  pose proof (Z.div_mod (len data - 1) 4 ltac:(lia)) as Hd.
  split; [reflexivity|]. split; [lia|].
  assert (Hlen : len (data ++ repeat x00 (Z.to_nat (3 - (len data - 1) mod 4))) =
                 len data + (3 - (len data - 1) mod 4)).
  { unfold len in *. rewrite length_app, repeat_length, Nat2Z.inj_add, Z2Nat.id; lia. }
  rewrite Hlen. split.
  - replace (len data + (3 - (len data - 1) mod 4))
      with ((1 + (len data - 1) / 4) * 4) by lia.
    apply Z.mod_mul. lia.
  - intros Hm.
    pose proof (Z.div_mod (len data) 4 ltac:(lia)) as Hd'.
    assert (E : (len data - 1) mod 4 = 3); [|lia].
    replace (len data - 1) with (3 + (len data / 4 - 1) * 4) by lia.
    rewrite Z.mod_add by lia. reflexivity.
Qed.

Lemma loader_body_records (secs : list section) (b b' : bytes) :
  loader_body b secs = Ok b' ->
  b' = b ++ flat_map section_record secs /\
  Forall (fun sec => u32 (fst sec) /\ u32 (len (pad4 (snd sec)))) secs.
Proof.
  revert b. induction secs as [|[addr data] secs IH]; intros b H.
  - cbn in H. injection H as <-. rewrite app_nil_r. split; [reflexivity|constructor].
  - cbn [loader_body pack_Is] in H. unfold pack_I, pack_uint in H.
    change (2 ^ (8 * Z.of_nat 4)) with (2 ^ 32) in H.
    destruct ((0 <=? addr) && (addr <? 2 ^ 32)) eqn:Ea; cbn [rbind] in H; [|discriminate].
    destruct ((0 <=? len (pad4 data)) && (len (pad4 data) <? 2 ^ 32)) eqn:El;
      cbn [rbind] in H; [|discriminate].
    apply IH in H. destruct H as [-> Hall].
    apply andb_true_iff in Ea, El.
    split.
    + cbn [flat_map]. unfold section_record. cbn [fst snd].
      rewrite app_nil_r, <- !app_assoc. reflexivity.
    + constructor; [|exact Hall]. cbn [fst snd]. unfold u32. lia.
Qed.

Lemma image_header_ok (n : Z) (entry : option Z) (b : bytes) :
  image_header n entry = Ok b ->
  exists e, entry = Some e /\ u32 e /\ 0 <= n < 256 /\
            b = [xe9; byte_of_Z n; x00; x00] ++ le_bytes 4 e.
Proof.
  unfold image_header, pack_B, pack_I, pack_uint.
  change (2 ^ (8 * Z.of_nat 1)) with 256.
  change (2 ^ (8 * Z.of_nat 4)) with (2 ^ 32).
  cbn [rbind]. intros H.
  destruct ((0 <=? n) && (n <? 256)) eqn:En; cbn [rbind] in H; [|discriminate].
  destruct entry as [e|]; cbn [rbind] in H; [|discriminate].
  destruct ((0 <=? e) && (e <? 2 ^ 32)) eqn:Ee; cbn [rbind] in H; [|discriminate].
  injection H as <-. apply andb_true_iff in En, Ee.
  exists e. unfold u32. repeat split; try lia. 
Qed.

Lemma loader_image_inv (self : Image) (out : bytes) :
  fst (loader_image self) = Ok out ->
  exists e ck,
    entrypoint self = Some e /\ u32 e /\
    len (loaded_sections self) < 256 /\
    joined_data (loaded_sections self) <> [] /\
    checksum (joined_data (loaded_sections self)) ESP_CHECKSUM_MAGIC = Ok ck /\
    let table := [xe9; byte_of_Z (len (loaded_sections self)); x00; x00] ++
                 le_bytes 4 e ++ flat_map section_record (loaded_sections self) in
    out = table ++ repeat x00 (Z.to_nat (15 - (len table) mod 16)) ++ [byte_of_Z ck].
Proof.
  unfold loader_image. cbn [fst]. intros H.
  destruct (image_header _ _) as [b0|] eqn:Eh; cbn [rbind] in H; [|discriminate].
  destruct (image_header_ok _ _ _ Eh) as (e & He & Hu & Hn & ->).
  destruct (loader_body _ _) as [b|] eqn:Eb; cbn [rbind] in H; [|discriminate].
  destruct (loader_body_records _ _ _ Eb) as [-> _].
  destruct (joined_data (loaded_sections self)) as [|c data] eqn:Ej; [discriminate|].
  rewrite checksum_nonempty in H. cbn [rbind] in H.
  set (ck := Z.lxor _ _) in *.
  assert (Hck : 0 <= ck < 256).
  { apply lxor_byte_range; [unfold ESP_CHECKSUM_MAGIC; lia|].
    apply fold_lxor_range, Z_of_byte_range. }
  cbn [bytes_of_ints] in H.
  destruct (Z.leb_spec 0 ck); [|lia]. destruct (Z.ltb_spec ck 256); [|lia].
  cbn [andb rbind] in H. injection H as <-.
  exists e, ck. split; [exact He|]. split; [exact Hu|]. split; [lia|].
  split; [discriminate|]. split; [apply checksum_nonempty|].
  cbv zeta. unfold bytes_repeat. rewrite <- !app_assoc. reflexivity.
Qed.

(** X10.  The format of the loader image.  Whenever [loader_image]
    returns, the entrypoint is set and fits 32 bits, there are at most
    255 loaded sections that carry at least one byte between them, and
    the image is: the byte 0xE9, the section count, two zero bytes, the
    entrypoint; then for each loaded section in order its address, its
    padded length and its padded data; then zero bytes up to one short
    of a multiple of 16; then one byte, the checksum of the unpadded
    section data. *)
Theorem loader_image_format (self : Image) (out : bytes) :
  fst (loader_image self) = Ok out ->
  exists e ck,
    entrypoint self = Some e /\ u32 e /\
    len (loaded_sections self) < 256 /\
    joined_data (loaded_sections self) <> [] /\
    checksum (joined_data (loaded_sections self)) ESP_CHECKSUM_MAGIC = Ok ck /\
    let table := [xe9; byte_of_Z (len (loaded_sections self)); x00; x00] ++
                 le_bytes 4 e ++ flat_map section_record (loaded_sections self) in
    out = table ++ repeat x00 (Z.to_nat (15 - (len table) mod 16)) ++ [byte_of_Z ck].
Proof.
  intros H.
  destruct (loader_image_inv self out H) as (e & ck & He & Hu & Hn & Hj & Hck & Hout).
  exists e, ck.
  split; [exact He|]. split; [exact Hu|]. split; [exact Hn|].
  split; [exact Hj|]. split; [exact Hck | exact Hout].
Qed.

Lemma loader_image_format_witness :
  exists e ck, entrypoint descending_image = Some e /\ u32 e /\
               checksum (joined_data (loaded_sections descending_image))
                        ESP_CHECKSUM_MAGIC = Ok ck.
Proof.
  destruct (loader_image_format descending_image
              [xe9; x01; x00; x00; x00; x00; x10; "@"%byte;
               x00; x00; x10; "@"%byte; x04; x00; x00; x00;
               x00; x00; x00; x00; x00; x00; x00; x00;
               x00; x00; x00; x00; x00; x00; x00; xef])
    as (e & ck & He & Hu & _ & _ & Hck & _).
  - reflexivity.
  - exists e, ck. split; [exact He | split; [exact Hu | exact Hck]].
Defined.

(** X11.  Whenever [loader_image] returns, the length of the image is
    a positive multiple of 16. *)
Theorem loader_image_length (self : Image) (out : bytes) :
  fst (loader_image self) = Ok out ->
  (len out) mod 16 = 0 /\ 16 <= len out.
Proof.
  intros H. destruct (loader_image_inv self out H)
    as (e & ck & _ & _ & _ & _ & _ & Hout).
  cbv zeta in Hout.
  set (table := [xe9; _; x00; x00] ++ le_bytes 4 e ++ flat_map _ _) in Hout.
  pose proof (Z.mod_pos_bound (len table) 16 ltac:(lia)) as Hb.
  assert (Hlen : len out = len table + (15 - len table mod 16) + 1).
  { rewrite Hout. unfold len in *. rewrite !length_app, repeat_length.
    cbn [List.length]. rewrite !Nat2Z.inj_add, Z2Nat.id; lia. }
  assert (Ht : 0 <= len table) by (unfold len; lia).
  rewrite Hlen.
  replace (len table + (15 - len table mod 16) + 1)
    with ((1 + len table / 16) * 16)
    by (pose proof (Z.div_mod (len table) 16 ltac:(lia)); lia).
  split; [apply Z.mod_mul; lia|].
  pose proof (Z.div_pos (len table) 16 Ht ltac:(lia)). lia.
Qed.

Lemma loader_image_length_witness :
  (len [xe9; x01; x00; x00; x00; x00; x10; "@"%byte;
        x00; x00; x10; "@"%byte; x04; x00; x00; x00;
        x00; x00; x00; x00; x00; x00; x00; x00;
        x00; x00; x00; x00; x00; x00; x00; xef]) mod 16 = 0.
Proof.
  apply (loader_image_length descending_image). reflexivity.
Defined.

(** X12.  An Image none of whose loaded sections carries a byte (one
    with no loaded section, for instance) has no loader image:
    [loader_image] raises, [TypeError] from the checksum of the empty
    payload when the header and the section table could be packed, and
    [struct.error] otherwise. *)
Theorem loader_image_needs_payload (self : Image) :
  joined_data (loaded_sections self) = [] ->
  fst (loader_image self) = Raise TypeError \/
  fst (loader_image self) = Raise StructError.
Proof.
  intros Hj.
  destruct (loader_image_outcome self) as [E|[[_ E]|(b & ck & Hck & _)]]; auto.
  rewrite Hj in Hck. discriminate.
Qed.

Lemma loader_image_needs_payload_witness :
  fst (loader_image (init (Some 0x40100000) ESP_FLASH_BASE)) = Raise TypeError \/
  fst (loader_image (init (Some 0x40100000) ESP_FLASH_BASE)) = Raise StructError.
Proof. apply loader_image_needs_payload. reflexivity. Defined.

(* ================================================================== *)
(** * The flat flash image                                             *)
(* ================================================================== *)

Lemma fits_section_le (x y : section) : fits x y -> section_le x y.
Proof.
  unfold fits, section_le, section_ltb. intros H.
  assert (Hx : 0 <= len (snd x)) by (unfold len; lia).
  destruct (Z.eqb_spec (fst y) (fst x)) as [E|E].
  - assert (Hnil : snd x = []).
    { destruct (snd x); [reflexivity|]. unfold len in *. cbn [List.length] in *. lia. }
    rewrite Hnil. destruct (snd y); reflexivity.
  - apply Z.ltb_ge. lia.
Qed.

Lemma sorted_fits_le (l : list section) : Sorted fits l -> Sorted section_le l.
Proof.
  induction 1 as [|x l Hs IH Hhd]; constructor; [exact IH|].
  destruct Hhd; constructor. apply fits_section_le. assumption.
Qed.

Lemma skipn_exact {A} (l1 l2 : list A) (n : nat) :
  List.length l1 = n -> skipn n (l1 ++ l2) = l2.
Proof.
  intros <-. rewrite skipn_app, skipn_all, Nat.sub_diag. reflexivity.
Qed.

Lemma firstn_exact {A} (l1 l2 : list A) : firstn (List.length l1) (l1 ++ l2) = l1.
Proof.
  rewrite firstn_app, firstn_all, Nat.sub_diag. cbn. apply app_nil_r.
Qed.

Lemma static_body_layout (base : Z) (secs : list section) (b : bytes) :
  Sorted fits secs ->
  match secs with [] => True | s :: _ => len b <= fst s - base end ->
  exists t,
    static_body base b secs = b ++ t /\
    (forall addr data,
       In (addr, data) secs ->
       firstn (List.length data) (skipn (Z.to_nat (addr - base)) (b ++ t)) = data /\
       addr - base + len data <= len (b ++ t)) /\
    (forall i c,
       nth_error (b ++ t) i = Some c ->
       (i < List.length b)%nat \/ c = xff \/
       exists sec, In sec secs /\ covers base sec i) /\
    (secs <> [] ->
       exists sec, In sec secs /\ len (b ++ t) = fst sec - base + len (snd sec)).
Proof.
  intros Hs. revert b. induction Hs as [|[a d] rest Hs IH Hhd]; intros b Hfit.
  - exists []. rewrite app_nil_r. split; [reflexivity|].
    split; [intros ? ? []|]. split; [|congruence].
    intros i c Hn. left. apply nth_error_Some. congruence.
  - cbn [fst] in Hfit. cbn [static_body].
    set (filler := bytes_repeat xff (a - base - len b)).
    assert (Hpre : List.length (b ++ filler) = Z.to_nat (a - base)).
    { unfold filler, bytes_repeat, len in *. rewrite length_app, repeat_length. lia. }
    assert (Hlen' : len (b ++ filler ++ d) = a - base + len d).
    { unfold len in *. rewrite app_assoc, length_app, Hpre. lia. }
    destruct (IH (b ++ filler ++ d)) as (t' & Hbody & Hplace & Hfill & Hend).
    { destruct Hhd as [|s rest' Hf]; [exact I|]. unfold fits in Hf. cbn [fst snd] in Hf. lia. }
    exists (filler ++ d ++ t').
    assert (Heq : b ++ filler ++ d ++ t' = (b ++ filler ++ d) ++ t')
      by (rewrite <- !app_assoc; reflexivity).
    rewrite Heq. split; [exact Hbody|]. split; [|split].
    + intros addr data [E|Hin]; [|apply Hplace, Hin].
      injection E as <- <-. split.
      * rewrite <- Heq, (app_assoc b filler), (skipn_exact _ _ _ Hpre).
        apply firstn_exact.
      * unfold len in *. rewrite length_app. lia.
    + intros i c Hn.
      destruct (Hfill i c Hn) as [Hi|[Hc|(sec & Hin & Hcov)]].
      * rewrite nth_error_app1 in Hn by exact Hi.
        destruct (Nat.lt_ge_cases i (List.length b)) as [Hb|Hb]; [left; exact Hb|].
        right. rewrite nth_error_app2 in Hn by exact Hb.
        destruct (Nat.lt_ge_cases (i - List.length b) (List.length filler)) as [Hf|Hf].
        -- left. rewrite nth_error_app1 in Hn by exact Hf.
           apply nth_error_In in Hn. unfold filler, bytes_repeat in Hn.
           apply repeat_spec in Hn. exact Hn.
        -- right. exists (a, d). split; [left; reflexivity|].
           unfold covers. cbn [fst snd].
           rewrite length_app in Hpre. rewrite !length_app in Hi.
           unfold len in *. lia.
      * right; left. exact Hc.
      * right; right. exists sec. split; [right; exact Hin | exact Hcov].
    + intros _. destruct rest as [|s rest'].
      * exists (a, d). split; [left; reflexivity|]. cbn [fst snd].
        cbn [static_body] in Hbody.
        assert (Ht : t' = []).
        { apply (f_equal (@List.length byte)) in Hbody. rewrite !length_app in Hbody.
          destruct t'; [reflexivity | cbn [List.length] in Hbody; lia]. }
        rewrite Ht, app_nil_r. exact Hlen'.
      * destruct Hend as (sec & Hin & Hl); [discriminate|].
        exists sec. split; [right; exact Hin | exact Hl].
Qed.

(** X13.  The layout of the flat flash image.  When the static
    sections, taken in address order, do not overlap (each ends at or
    before the start of the next), [static_image] returns the lowest
    address less the flash base and an image in which every section's
    bytes stand at the offset of its address from that lowest address,
    every byte outside all sections is the filler 0xFF, and the image
    ends where a section ends. *)
Theorem static_image_layout (self : Image) :
  static_sections self <> [] ->
  Sorted fits (sort (static_sections self)) ->
  exists base out,
    fst (static_image self) = Ok (base - flash_base self, out) /\
    (forall addr data,
       In (addr, data) (static_sections self) ->
       firstn (List.length data) (skipn (Z.to_nat (addr - base)) out) = data /\
       addr - base + len data <= len out) /\
    (forall i c,
       nth_error out i = Some c ->
       c = xff \/ exists sec, In sec (static_sections self) /\ covers base sec i) /\
    (exists sec, In sec (static_sections self) /\
                 len out = fst sec - base + len (snd sec)).
Proof.
  intros Hne Hfits.
  pose proof (sort_perm (static_sections self)) as Hperm.
  unfold static_image. cbn [static_sections flash_base].
  destruct (sort (static_sections self)) as [|[base d] l] eqn:E.
  - exfalso. exact (sort_nonempty _ Hne E).
  - destruct (static_body_layout base ((base, d) :: l) [] Hfits) as (t & Hb & Hplace & Hfill & Hend).
    { cbn. lia. }
    cbn [app] in *. exists base, t. cbn [fst].
    split; [exact (f_equal (fun x => Ok (base - flash_base self, x)) Hb)|].
    split; [|split].
    + intros addr data Hin. apply Hplace. apply (Permutation_in _ Hperm Hin).
    + intros i c Hn. destruct (Hfill i c Hn) as [Hi|[Hc|(sec & Hin & Hcov)]].
      * cbn in Hi. lia.
      * left. exact Hc.
      * right. exists sec. split; [|exact Hcov].
        apply (Permutation_in _ (Permutation_sym Hperm) Hin).
    + destruct Hend as (sec & Hin & Hl); [discriminate|].
      exists sec. split; [|exact Hl].
      apply (Permutation_in _ (Permutation_sym Hperm) Hin).
Qed.

Lemma static_image_layout_witness :
  exists base out,
    fst (static_image descending_image) = Ok (base - ESP_FLASH_BASE, out) /\
    firstn 1 (skipn (Z.to_nat (0x40202000 - base)) out) = [x02].
Proof.
  destruct (static_image_layout descending_image) as (base & out & H & Hplace & _).
  - discriminate.
  - repeat constructor; unfold fits, len; cbn; lia.
  - exists base, out. split; [exact H|].
    apply (Hplace 0x40202000 [x02]). left. reflexivity.
Defined.

(** X14.  [static_image] raises exactly when there is no static
    section, and then it is the [IndexError] of reading the first element
    of the empty list; with at least one static section it returns. *)
Theorem static_image_fails_iff_empty (self : Image) :
  (static_sections self = [] <-> fst (static_image self) = Raise IndexError) /\
  (static_sections self <> [] <-> exists r, fst (static_image self) = Ok r).
Proof.
  unfold static_image. cbn [static_sections].
  destruct (static_sections self) as [|s l] eqn:E.
  - cbn. split; split; try congruence; try reflexivity.
    intros [r Hr]. discriminate.
  - assert (Hne : sort (s :: l) <> []) by (apply sort_nonempty; discriminate).
    destruct (sort (s :: l)) as [|[base d] l']; [congruence|]. cbn [fst].
    split; split; try discriminate.
    + intros _. eexists. reflexivity.
Qed.

(** X15.  [combined_image] is the loader image, then 0xFF filler up to
    the flash-relative offset of the static image, then the static image.
    When that offset is at least the length of the loader image, the
    static image starts exactly at the offset; when it is smaller, no
    filler is written, nothing is raised and the static image follows the
    loader image directly, above its offset. *)
Theorem combined_image_layout (self : Image) (limg simg : bytes) (sbase : Z) :
  fst (loader_image self) = Ok limg ->
  fst (static_image self) = Ok (sbase, simg) ->
  exists out,
    fst (combined_image self) = Ok out /\
    firstn (List.length limg) out = limg /\
    (len limg <= sbase ->
       skipn (Z.to_nat sbase) out = simg /\
       len out = sbase + len simg /\
       forall i c, (List.length limg <= i < Z.to_nat sbase)%nat ->
                   nth_error out i = Some c -> c = xff) /\
    (sbase < len limg -> out = limg ++ simg).
Proof.
  intros Hl Hs. unfold combined_image, ibind.
  destruct (loader_image self) as [r1 self1] eqn:E1.
  assert (self1 = self) by (unfold loader_image in E1; congruence). subst self1.
  cbn [fst] in Hl. subst r1.
  destruct (static_image self) as [r2 self2] eqn:E2. cbn [fst] in Hs. subst r2.
  cbn [fst snd].
  set (filler := bytes_repeat xff (sbase - len limg)).
  exists (limg ++ filler ++ simg). split; [reflexivity|].
  split; [apply firstn_exact|]. split.
  - intros Hle.
    assert (Hpre : List.length (limg ++ filler) = Z.to_nat sbase).
    { unfold filler, bytes_repeat, len in *. rewrite length_app, repeat_length. lia. }
    split; [rewrite app_assoc; apply skipn_exact, Hpre|].
    split.
    + unfold len in *. rewrite app_assoc, length_app, Hpre. lia.
    + intros i c [Hi1 Hi2] Hn.
      rewrite nth_error_app2 in Hn by exact Hi1.
      rewrite length_app in Hpre.
      rewrite nth_error_app1 in Hn by lia.
      apply nth_error_In in Hn. unfold filler, bytes_repeat in Hn.
      apply repeat_spec in Hn. exact Hn.
  - intros Hlt. unfold filler, bytes_repeat.
    replace (Z.to_nat (sbase - len limg)) with O by lia. reflexivity.
Qed.

Lemma combined_image_layout_witness :
  exists out,
    fst (combined_image ascending_image) = Ok out /\
    len out = 0x1000 + 0x1001.
Proof.
  destruct (combined_image_layout ascending_image
              [xe9; x01; x00; x00; x00; x00; x10; "@"%byte;
               x00; x00; x10; "@"%byte; x04; x00; x00; x00;
               x00; x00; x00; x00; x00; x00; x00; x00;
               x00; x00; x00; x00; x00; x00; x00; xef]
              ([x01] ++ repeat xff 0xfff ++ [x02]) 0x1000)
    as (out & H & _ & Hge & _).
  - reflexivity.
  - vm_compute. reflexivity.
  - exists out. split; [exact H|].
    destruct Hge as (_ & Hlen & _); [unfold len; cbn; lia|].
    rewrite Hlen. unfold len. rewrite !length_app, repeat_length. reflexivity.
Defined.

(* ================================================================== *)
(** * What a command writes and what it reads                          *)
(* ================================================================== *)

Section Traffic.
Context {D : Type} {serial : Serial D}.

Lemma reads_only_ret {A} (a : A) : reads_only (D := D) (ret a).
Proof. intros s. constructor. Qed.

Lemma reads_only_raise {A} (e : exn) : reads_only (D := D) (A := A) (raise e).
Proof. intros s. constructor. Qed.

Lemma reads_only_bind {A B} (m : M D A) (f : A -> M D B) :
  reads_only m -> (forall a, reads_only (f a)) -> reads_only (bind m f).
Proof.
  intros Hm Hf s. specialize (Hm s). unfold bind, trace in *.
  destruct (m s) as [[[a|e] s1] t1]; cbn [snd] in *; [|exact Hm].
  specialize (Hf a s1). unfold trace in Hf.
  destruct (f a s1) as [[r s2] t2]; cbn [snd] in *.
  apply Forall_app. split; assumption.
Qed.

Lemma reads_only_read_byte : reads_only (D := D) read_byte.
Proof.
  intros s. unfold read_byte, trace.
  destruct (port_read (timeout s) (dev s)) as [[[c|]|e] d]; cbn;
    repeat constructor.
Qed.

Lemma reads_only_for_each {A} (l : list A) (body : A -> M D unit) :
  (forall x, reads_only (body x)) -> reads_only (for_each l body).
Proof.
  intros Hb. induction l as [|x l IH]; cbn [for_each].
  - apply reads_only_ret.
  - apply reads_only_bind; [apply Hb | intros _; exact IH].
Qed.

Ltac reads_step :=
  match goal with
  | |- reads_only (bind _ _) => apply reads_only_bind; [|intros ?]
  | |- reads_only (ret _) => apply reads_only_ret
  | |- reads_only (raise _) => apply reads_only_raise
  | |- reads_only read_byte => apply reads_only_read_byte
  | |- reads_only (if ?c then _ else _) => destruct c
  end.

Lemma reads_only_slip_read : reads_only (D := D) slip_read.
Proof. unfold slip_read. repeat reads_step. Qed.

Lemma reads_only_read (length : Z) : reads_only (D := D) (read length).
Proof.
  unfold read. induction (Z.to_nat length) as [|n IH]; cbn [read_n].
  - apply reads_only_ret.
  - apply reads_only_bind; [apply reads_only_slip_read | intros c].
    apply reads_only_bind; [exact IH | intros cs; apply reads_only_ret].
Qed.

Lemma bind_trace_split {A B} (m : M D A) (f : A -> M D B) (s : port D) :
  exists r, trace (bind m f s) = trace (m s) ++ r /\
            (r = [] \/ exists a s1, r = trace (f a s1)).
Proof.
  unfold bind, trace. destruct (m s) as [[[a|e] s1] t1]; cbn [snd].
  - destruct (f a s1) as [[r s2] t2] eqn:E. exists t2. split; [reflexivity|].
    right. exists a, s1. rewrite E. reflexivity.
  - exists []. rewrite app_nil_r. auto.
Qed.

(** The trace of a command is the write of its request, if it has one
    that can be packed, followed by reads only. *)
Lemma command_trace (op : option Z) (data : bytes) (chk : Z) (s : port D) :
  exists r, trace (command op data chk s) = request_write op data chk ++ r /\
            Forall is_read r.
Proof.
  unfold command.
  match goal with
  | |- context [trace (bind ?m ?f s)] =>
      destruct (bind_trace_split m f s) as (r & Hr & Hcase);
      assert (Hf : forall a, reads_only (f a))
  end.
  { intros a. cbv beta. repeat first [ apply reads_only_read | reads_step ]. }
  rewrite Hr.
  assert (Hpre : exists w, trace (match op with
                     | Some o => (pkt <- lift (request_packet o data chk) ;; write pkt)%port
                     | None => ret tt
                     end s) = request_write op data chk ++ w /\ w = []).
  { exists []. rewrite app_nil_r. split; [|reflexivity].
    unfold request_write. destruct op as [o|]; [|reflexivity].
    unfold bind, lift, write, write_bytes, trace.
    destruct (request_packet o data chk) as [pkt|e]; [|reflexivity].
    destruct (port_write (slip_frame pkt) (dev s)). reflexivity. }
  destruct Hpre as (w & Hw & ->). rewrite Hw, app_nil_r.
  exists r. split; [reflexivity|].
  destruct Hcase as [->|(a & s1 & ->)]; [constructor | apply (Hf a)].
Qed.

Lemma writes_app (t1 t2 : list event) : writes (t1 ++ t2) = writes t1 ++ writes t2.
Proof.
  induction t1 as [|e t1 IH]; [reflexivity|].
  destruct e; cbn [app writes]; rewrite IH; reflexivity.
Qed.

Lemma writes_of_reads (tr : list event) : Forall is_read tr -> writes tr = [].
Proof.
  induction 1 as [|e tr He _ IH]; [reflexivity|].
  destruct e; cbn in He; try contradiction. exact IH.
Qed.

Lemma reads_only_command_None (data : bytes) (chk : Z) :
  reads_only (D := D) (command None data chk).
Proof.
  intros s. destruct (command_trace None data chk s) as (r & Hr & Hro).
  rewrite Hr. exact Hro.
Qed.

(** X16.  However the device behaves, [sync] writes to the port
    exactly once, and what it writes is the framed sync probe: opcode
    0x08, payload [07 07 12 20] followed by 32 bytes 0x55.  The seven
    bare [command()] calls that follow only read. *)
Theorem sync_writes_probe_once (s : port D) :
  request_packet ESP_SYNC sync_payload 0 =
    Ok ([x00; x08; "$"%byte; x00; x00; x00; x00; x00] ++
        [x07; x07; x12; " "%byte] ++ repeat "U"%byte 32) /\
  writes (trace (sync s)) =
    [slip_frame ([x00; x08; "$"%byte; x00; x00; x00; x00; x00] ++
                 [x07; x07; x12; " "%byte] ++ repeat "U"%byte 32)] /\
  hd_error (trace (sync s)) =
    Some (EvWrite (slip_frame ([x00; x08; "$"%byte; x00; x00; x00; x00; x00] ++
                               [x07; x07; x12; " "%byte] ++ repeat "U"%byte 32))).
Proof.
  split; [reflexivity|].
  unfold sync.
  match goal with
  | |- context [trace (bind ?m ?f s)] =>
      destruct (bind_trace_split m f s) as (r & Hr & Hcase);
      assert (Hf : forall a, reads_only (f a))
  end.
  { intros a. apply reads_only_for_each. intros x.
    apply reads_only_bind; [apply reads_only_command_None | intros ?; apply reads_only_ret]. }
  rewrite Hr.
  destruct (command_trace (Some ESP_SYNC) sync_payload 0 s) as (r1 & Hr1 & Hro1).
  rewrite Hr1.
  assert (Hro : Forall is_read r)
    by (destruct Hcase as [->|(a & s1 & ->)]; [constructor | apply (Hf a)]).
  change (request_write (Some ESP_SYNC) sync_payload 0)
    with [EvWrite (slip_frame ([x00; x08; "$"%byte; x00; x00; x00; x00; x00] ++
                               [x07; x07; x12; " "%byte] ++ repeat "U"%byte 32))].
  split; [|reflexivity].
  cbn [app writes]. rewrite writes_app, (writes_of_reads _ Hro1), (writes_of_reads _ Hro).
  reflexivity.
Qed.

(** X17.  A command whose request cannot be packed, because the
    payload is 65536 bytes or longer, the opcode does not fit a byte or
    the checksum does not fit 32 bits, raises [struct.error] before
    anything is written or read: the port is left untouched. *)
Theorem command_unpackable_request (op : Z) (data : bytes) (chk : Z) (s : port D) :
  65536 <= len data \/ ~ (0 <= op < 256) \/ ~ u32 chk ->
  command (Some op) data chk s = (Raise StructError, s, []) /\
  simple_command (Some op) data chk s = (Raise StructError, s, []).
Proof.
  intros H.
  assert (Hp : request_packet op data chk = Raise StructError).
  { unfold request_packet, pack_B, pack_H, pack_I, pack_uint.
    change (2 ^ (8 * Z.of_nat 1)) with 256.
    change (2 ^ (8 * Z.of_nat 2)) with 65536.
    change (2 ^ (8 * Z.of_nat 4)) with (2 ^ 32).
    cbn [rbind andb Z.leb Z.ltb Z.compare].
    destruct (Z.leb_spec 0 op), (Z.ltb_spec op 256); cbn [andb rbind]; try reflexivity.
    destruct (Z.leb_spec 0 (len data)), (Z.ltb_spec (len data) 65536);
      cbn [andb rbind]; try reflexivity.
    destruct (Z.leb_spec 0 chk), (Z.ltb_spec chk (2 ^ 32));
      cbn [andb rbind]; try reflexivity.
    unfold u32 in H. lia. }
  assert (Hc : command (Some op) data chk s = (Raise StructError, s, [])).
  { unfold command, bind, lift. rewrite Hp. reflexivity. }
  split; [exact Hc|].
  unfold simple_command. apply (bind_raise _ _ _ _ _ _ Hc).
Qed.

End Traffic.

Lemma command_unpackable_request_witness :
  command (Some ESP_FLASH_DATA) [x00] (2 ^ 32) (mkPort (answers_at 0) None) =
  (Raise StructError, mkPort (answers_at 0) None, []).
Proof.
  apply command_unpackable_request. right; right. unfold u32. lia.
Defined.

(* ================================================================== *)
(** * Reading a response from a line that delivers its bytes in order  *)
(* ================================================================== *)

Lemma command_split {D : Type} {serial : Serial D} (op : option Z) (data : bytes) (chk : Z) :
  command op data chk = (send_request op data chk ;;; receive_response op)%port.
Proof. reflexivity. Qed.

Lemma reads_only_receive {D : Type} {serial : Serial D} (op : option Z) :
  reads_only (D := D) (receive_response op).
Proof.
  unfold receive_response.
  apply reads_only_bind; [apply reads_only_read_byte | intros c].
  destruct (negb (Byte.eqb c xc0)); [apply reads_only_raise|].
  apply reads_only_bind; [apply reads_only_read | intros hdr]. cbv zeta.
  destruct (negb (uint_at 0 1 hdr =? 1) || op_mismatch op (uint_at 1 1 hdr));
    [apply reads_only_raise|].
  apply reads_only_bind; [apply reads_only_read | intros body].
  apply reads_only_bind; [apply reads_only_read_byte | intros c'].
  destruct (negb (Byte.eqb c' xc0)); [apply reads_only_raise | apply reads_only_ret].
Qed.

Lemma bind_ok_eq {D A B} (m : M D A) (f : A -> M D B) s a s1 t1 r s2 t2 :
  m s = (Ok a, s1, t1) -> f a s1 = (r, s2, t2) ->
  bind m f s = (r, s2, t1 ++ t2).
Proof. intros H1 H2. unfold bind. rewrite H1, H2. reflexivity. Qed.

Lemma header_fields (status opb : byte) (L v : Z) :
  let hdr := [status; opb] ++ le_bytes 2 L ++ le_bytes 4 v in
  List.length hdr = 8%nat /\
  uint_at 0 1 hdr = Z_of_byte status /\
  uint_at 1 1 hdr = Z_of_byte opb /\
  uint_at 2 2 hdr = L mod 65536 /\
  uint_at 4 4 hdr = v mod 2 ^ 32.
Proof.
  cbv zeta. unfold uint_at. cbn [le_bytes app skipn firstn List.length le_int].
  repeat split; try lia.
  - change (Z_of_byte (byte_of_Z L) + 256 * (Z_of_byte (byte_of_Z (L / 256)) + 256 * 0))
      with (le_int (le_bytes 2 L)).
    apply le_int_le_bytes.
  - change (Z_of_byte (byte_of_Z v) +
            256 * (Z_of_byte (byte_of_Z (v / 256)) +
                   256 * (Z_of_byte (byte_of_Z (v / 256 / 256)) +
                          256 * (Z_of_byte (byte_of_Z (v / 256 / 256 / 256)) + 256 * 0))))
      with (le_int (le_bytes 4 v)).
    apply le_int_le_bytes.
Qed.

Section Queue.
Context {D : Type} {serial : Serial D}.

(** The bytes waiting to be read and a relation that reading keeps. *)
Variable rxq : D -> bytes.
Variable keep : D -> D -> Prop.
Hypothesis keep_refl : forall d, keep d d.
Hypothesis keep_trans : forall d1 d2 d3, keep d1 d2 -> keep d2 d3 -> keep d1 d3.
Hypothesis read_pops :
  forall t d c q, rxq d = c :: q ->
    exists d', port_read t d = (Ok (Some c), d') /\ rxq d' = q /\ keep d d'.

Lemma queue_read_byte (c : byte) (q : bytes) (d : D) (tmo : option Q) :
  rxq d = c :: q ->
  exists d', read_byte (mkPort d tmo) = (Ok c, mkPort d' tmo, [EvRead tmo]) /\
             rxq d' = q /\ keep d d'.
Proof.
  intros H. destruct (read_pops tmo d c q H) as (d' & Hr & Hq & Hk).
  exists d'. unfold read_byte. cbn [dev timeout]. rewrite Hr. auto.
Qed.

Lemma queue_slip_read (c : byte) (rest : bytes) (d : D) (tmo : option Q) :
  rxq d = slip_escape c ++ rest ->
  exists d' tr, slip_read (mkPort d tmo) = (Ok c, mkPort d' tmo, tr) /\
                rxq d' = rest /\ keep d d'.
Proof.
  unfold slip_escape, slip_read.
  destruct (Byte.eqb c xc0) eqn:E0.
  { apply Byte.byte_dec_bl in E0. subst c. cbn [app]. intros H.
    destruct (queue_read_byte _ _ _ tmo H) as (d1 & H1 & Hq1 & Hk1).
    destruct (queue_read_byte _ _ _ tmo Hq1) as (d2 & H2 & Hq2 & Hk2).
    exists d2. eexists. split; [|split; [exact Hq2 | eauto]].
    eapply bind_ok_eq; [exact H1|]. cbv beta.
    change (Byte.eqb xdb xdb) with true. cbv iota.
    eapply bind_ok_eq; [exact H2|]. reflexivity. }
  destruct (Byte.eqb c xdb) eqn:E1.
  { apply Byte.byte_dec_bl in E1. subst c. cbn [app]. intros H.
    destruct (queue_read_byte _ _ _ tmo H) as (d1 & H1 & Hq1 & Hk1).
    destruct (queue_read_byte _ _ _ tmo Hq1) as (d2 & H2 & Hq2 & Hk2).
    exists d2. eexists. split; [|split; [exact Hq2 | eauto]].
    eapply bind_ok_eq; [exact H1|]. cbv beta.
    change (Byte.eqb xdb xdb) with true. cbv iota.
    eapply bind_ok_eq; [exact H2|]. reflexivity. }
  cbn [app]. intros H.
  destruct (queue_read_byte _ _ _ tmo H) as (d1 & H1 & Hq1 & Hk1).
  exists d1. eexists. split; [|split; [exact Hq1 | exact Hk1]].
  eapply bind_ok_eq; [exact H1|]. cbv beta. rewrite E1. reflexivity.
Qed.

Lemma queue_read_n (b rest : bytes) (d : D) (tmo : option Q) :
  rxq d = flat_map slip_escape b ++ rest ->
  exists d' tr, read_n (List.length b) (mkPort d tmo) = (Ok b, mkPort d' tmo, tr) /\
                rxq d' = rest /\ keep d d'.
Proof.
  revert d. induction b as [|c b IH]; intros d H.
  - exists d, []. cbn in *. auto.
  - cbn [flat_map] in H. rewrite <- app_assoc in H.
    destruct (queue_slip_read _ _ _ tmo H) as (d1 & t1 & H1 & Hq1 & Hk1).
    destruct (IH d1 Hq1) as (d2 & t2 & H2 & Hq2 & Hk2).
    exists d2. eexists. split; [|split; [exact Hq2 | eauto]].
    cbn [List.length read_n].
    eapply bind_ok_eq; [exact H1|]. cbv beta.
    eapply bind_ok_eq; [exact H2|]. reflexivity.
Qed.

(** Reading a well-formed response that the opcode check lets through. *)
Lemma queue_receive_accepts
  (op : option Z) (opb : byte) (val : Z) (body rest : bytes) (d : D) (tmo : option Q) :
  rxq d = response_frame x01 opb val body ++ rest ->
  len body < 65536 ->
  op_mismatch op (Z_of_byte opb) = false ->
  exists d' tr,
    receive_response op (mkPort d tmo) = (Ok (val mod 2 ^ 32, body), mkPort d' tmo, tr) /\
    rxq d' = rest /\ keep d d'.
Proof.
  intros Hq Hlen Hop. unfold response_frame in Hq.
  destruct (header_fields x01 opb (len body) val) as (Hl8 & Hresp & Hopr & Hlr & Hval).
  replace ([x01; opb] ++ le_bytes 2 (len body) ++ le_bytes 4 val ++ body)
    with (([x01; opb] ++ le_bytes 2 (len body) ++ le_bytes 4 val) ++ body) in Hq
    by (rewrite <- !app_assoc; reflexivity).
  remember ([x01; opb] ++ le_bytes 2 (len body) ++ le_bytes 4 val) as hdr eqn:Ehdr.
  rewrite flat_map_app in Hq. rewrite <- !app_assoc in Hq. cbn [app] in Hq.
  rewrite Z.mod_small in Hlr by (unfold len in *; lia).
  destruct (queue_read_byte _ _ _ tmo Hq) as (d1 & H1 & Hq1 & Hk1).
  destruct (queue_read_n hdr _ d1 tmo Hq1) as (d2 & t2 & H2 & Hq2 & Hk2).
  rewrite Hl8 in H2.
  destruct (queue_read_n body _ d2 tmo Hq2) as (d3 & t3 & H3 & Hq3 & Hk3).
  destruct (queue_read_byte _ _ _ tmo Hq3) as (d4 & H4 & Hq4 & Hk4).
  exists d4. eexists. split; [|split; [exact Hq4 | eauto]].
  unfold receive_response.
  eapply bind_ok_eq; [exact H1|]. cbv beta.
  change (negb (Byte.eqb xc0 xc0)) with false. cbv iota.
  eapply bind_ok_eq; [exact H2|]. cbv beta zeta.
  rewrite Hresp, Hopr, Hop, Hlr, Hval.
  change (negb (Z_of_byte x01 =? 1) || false) with false. cbv iota.
  unfold read, len. rewrite Nat2Z.id.
  eapply bind_ok_eq; [exact H3|]. cbv beta.
  eapply bind_ok_eq; [exact H4|]. cbv beta.
  change (negb (Byte.eqb xc0 xc0)) with false. cbv iota. reflexivity.
Qed.

(** Reading a response whose status is not 1, or whose opcode is not
    the one asked for. *)
Lemma queue_receive_rejects
  (op : option Z) (status opb : byte) (val : Z) (body rest : bytes) (d : D) (tmo : option Q) :
  rxq d = response_frame status opb val body ++ rest ->
  status <> x01 \/ op_mismatch op (Z_of_byte opb) = true ->
  outcome (receive_response op (mkPort d tmo)) = Raise (ValueError "Invalid response").
Proof.
  intros Hq Hbad. unfold response_frame in Hq.
  destruct (header_fields status opb (len body) val) as (Hl8 & Hresp & Hopr & _).
  replace ([status; opb] ++ le_bytes 2 (len body) ++ le_bytes 4 val ++ body)
    with (([status; opb] ++ le_bytes 2 (len body) ++ le_bytes 4 val) ++ body) in Hq
    by (rewrite <- !app_assoc; reflexivity).
  remember ([status; opb] ++ le_bytes 2 (len body) ++ le_bytes 4 val) as hdr eqn:Ehdr.
  rewrite flat_map_app in Hq. rewrite <- !app_assoc in Hq. cbn [app] in Hq.
  destruct (queue_read_byte _ _ _ tmo Hq) as (d1 & H1 & Hq1 & Hk1).
  destruct (queue_read_n hdr _ d1 tmo Hq1) as (d2 & t2 & H2 & Hq2 & Hk2).
  rewrite Hl8 in H2.
  assert (Hc : negb (Z_of_byte status =? 1) || op_mismatch op (Z_of_byte opb) = true).
  { destruct Hbad as [Hs|Hm]; [|rewrite Hm; apply orb_true_r].
    destruct (Z.eqb_spec (Z_of_byte status) 1) as [E|E]; [|reflexivity].
    exfalso. apply Hs. rewrite <- (byte_of_Z_of_byte status), E. reflexivity. }
  unfold receive_response.
  erewrite bind_ok_eq; [reflexivity | exact H1 |]. cbv beta.
  change (negb (Byte.eqb xc0 xc0)) with false. cbv iota.
  eapply bind_ok_eq; [exact H2|]. cbv beta zeta.
  rewrite Hresp, Hopr, Hc. reflexivity.
Qed.

End Queue.

(* ================================================================== *)
(** * Responses on the looped-back line                                *)
(* ================================================================== *)

Lemma loopback_pops :
  forall (t : option Q) (d : bytes) (c : byte) (q : bytes),
    d = c :: q ->
    exists d', port_read t d = (Ok (Some c), d') /\ d' = q /\ True.
Proof. intros t d c q ->. exists q. cbn. auto. Qed.

Lemma loopback_receive_accepts
  (op : option Z) (opb : byte) (val : Z) (body rest : bytes) (tmo : option Q) :
  len body < 65536 ->
  op_mismatch op (Z_of_byte opb) = false ->
  exists tr,
    receive_response op (mkPort (response_frame x01 opb val body ++ rest) tmo) =
    (Ok (val mod 2 ^ 32, body), mkPort rest tmo, tr).
Proof.
  intros Hlen Hop.
  destruct (queue_receive_accepts (fun q : bytes => q) (fun _ _ => True)
              (fun _ => I) (fun _ _ _ _ _ => I) loopback_pops
              op opb val body rest _ tmo eq_refl Hlen Hop)
    as (d' & tr & H & -> & _).
  exists tr. exact H.
Qed.

(** X18.  A well-formed response is decoded exactly.  When the line
    delivers the frame of a response with status 1, any opcode echo, a
    32-bit value and a body shorter than 65536 bytes, bytes 0xC0 and
    0xDB in the value or the body included, a bare [command()] returns
    that value and that body, and consumes the frame and nothing after
    it. *)
Theorem command_decodes_response
  (opb : byte) (val : Z) (body rest data : bytes) (chk : Z) (tmo : option Q) :
  u32 val -> len body < 65536 ->
  outcome (command None data chk (mkPort (response_frame x01 opb val body ++ rest) tmo)) =
    Ok (val, body) /\
  dev (final (command None data chk
                (mkPort (response_frame x01 opb val body ++ rest) tmo))) = rest.
Proof.
  intros Hval Hlen.
  destruct (loopback_receive_accepts None opb val body rest tmo Hlen eq_refl) as [tr H].
  rewrite Z.mod_small in H by exact Hval.
  assert (Hc : command None data chk
                 (mkPort (response_frame x01 opb val body ++ rest) tmo) =
               (Ok (val, body), mkPort rest tmo, [] ++ tr)).
  { rewrite command_split.
    exact (bind_ok_eq (send_request None data chk) (fun _ => receive_response None)
             _ tt _ [] _ _ _ eq_refl H). }
  rewrite Hc. split; reflexivity.
Qed.

Lemma command_decodes_response_witness :
  outcome (command None [] 0
             (mkPort (response_frame x01 x0a 0xc0db [xc0; xdb] ++ [x55]) None)) =
    Ok (0xc0db, [xc0; xdb]).
Proof.
  apply (command_decodes_response x0a 0xc0db [xc0; xdb] [x55] [] 0 None).
  - unfold u32. lia.
  - unfold len. cbn. lia.
Defined.

(** X19.  A response is rejected on its header.  When the status byte
    of the response is not 1, a bare [command()] raises
    [ValueError('Invalid response')]; and a command sent with a non-zero
    opcode raises the same error when the response, even with status 1,
    echoes a different opcode.  The body is not looked at. *)
Theorem command_rejects_bad_header
  (status opb : byte) (val : Z) (body data : bytes) (chk : Z) (tmo : option Q) :
  (status <> x01 ->
   outcome (command None data chk (mkPort (response_frame status opb val body) tmo)) =
     Raise (ValueError "Invalid response")) /\
  (forall o pkt,
     request_packet o data chk = Ok pkt ->
     o <> 0 -> Z_of_byte opb <> o ->
     outcome (command (Some o) data chk (mkPort (response_frame status opb val body) tmo)) =
       Raise (ValueError "Invalid response")).
Proof.
  split.
  - intros Hs. rewrite command_split.
    rewrite (bind_ok (send_request None data chk) _ _ tt _ [] eq_refl).
    cbn [outcome fst].
    rewrite <- (app_nil_r (response_frame status opb val body)).
    apply (queue_receive_rejects (fun q : bytes => q) (fun _ _ => True)
             (fun _ => I) (fun _ _ _ _ _ => I) loopback_pops
             None status opb val body [] _ tmo eq_refl).
    left. exact Hs.
  - intros o pkt Hp Ho Hne. rewrite command_split.
    assert (Hsend : send_request (Some o) data chk
                      (mkPort (response_frame status opb val body) tmo) =
                    (Ok tt, mkPort (response_frame status opb val body ++ slip_frame pkt) tmo,
                     [EvWrite (slip_frame pkt)])).
    { unfold send_request, bind, lift. rewrite Hp. reflexivity. }
    rewrite (bind_ok _ _ _ _ _ _ Hsend). cbn [outcome fst].
    apply (queue_receive_rejects (fun q : bytes => q) (fun _ _ => True)
             (fun _ => I) (fun _ _ _ _ _ => I) loopback_pops
             (Some o) status opb val body (slip_frame pkt) _ tmo eq_refl).
    right. unfold op_mismatch.
    destruct (Z.eqb_spec o 0); [contradiction|].
    destruct (Z.eqb_spec (Z_of_byte opb) o); [contradiction|]. reflexivity.
Qed.

Lemma command_rejects_bad_header_witness :
  outcome (command None [] 0 (mkPort (response_frame x00 x08 0 []) None)) =
    Raise (ValueError "Invalid response").
Proof.
  apply (proj1 (command_rejects_bad_header x00 x08 0 [] [] 0 None)).
  discriminate.
Defined.

(** X20.  [simple_command] accepts exactly the two-zero-byte body.  On
    a well-formed response with status 1 it returns the response's value
    when the body is [00 00] and raises
    [ValueError('Invalid command response from device')] for every other
    body, the empty one included. *)
Theorem simple_command_checks_body
  (opb : byte) (val : Z) (body data : bytes) (chk : Z) (tmo : option Q) :
  u32 val -> len body < 65536 ->
  outcome (simple_command None data chk (mkPort (response_frame x01 opb val body) tmo)) =
    if bytes_eqb body [x00; x00] then Ok val
    else Raise (ValueError "Invalid command response from device").
Proof.
  intros Hval Hlen.
  destruct (loopback_receive_accepts None opb val body [] tmo Hlen eq_refl) as [tr H].
  rewrite Z.mod_small, app_nil_r in H by exact Hval.
  assert (Hc : command None data chk (mkPort (response_frame x01 opb val body) tmo) =
               (Ok (val, body), mkPort [] tmo, [] ++ tr)).
  { rewrite command_split.
    exact (bind_ok_eq (send_request None data chk) (fun _ => receive_response None)
             _ tt _ [] _ _ _ eq_refl H). }
  unfold simple_command. rewrite (bind_ok _ _ _ _ _ _ Hc). cbn [outcome fst snd].
  destruct (bytes_eqb body [x00; x00]); reflexivity.
Qed.

Lemma simple_command_checks_body_witness :
  outcome (simple_command None [] 0 (mkPort (response_frame x01 x0a 7 [x00; x00]) None)) =
    Ok 7.
Proof.
  apply (simple_command_checks_body x0a 7 [x00; x00] [] 0 None).
  - unfold u32. lia.
  - unfold len. cbn. lia.
Defined.

(** X21.  [flash_finish] sends the flash-end request (opcode 0x04)
    whose one payload field is 0 when a reboot is asked for and 1
    otherwise, and on a well-formed response echoing that opcode it
    returns exactly when the body is [00 00] or [01 06]; every other
    body raises [Exception]. *)
Theorem flash_finish_accepts_two_bodies
  (reboot : bool) (val : Z) (body : bytes) (tmo : option Q) :
  len body < 65536 ->
  let s := mkPort (response_frame x01 x04 val body) tmo in
  outcome (flash_finish reboot s) =
    (if bytes_eqb body [x00; x00] || bytes_eqb body [x01; x06]
     then Ok tt
     else Raise (PyException "Failed to leave Flash mode")) /\
  writes (trace (flash_finish reboot s)) =
    [slip_frame ([x00; x04; x04; x00; x00; x00; x00; x00] ++
                 [if reboot then x00 else x01; x00; x00; x00])].
Proof.
  intros Hlen. cbv zeta.
  set (payload := [if reboot then x00 else x01; x00; x00; x00]).
  set (pkt := [x00; x04; x04; x00; x00; x00; x00; x00] ++ payload).
  assert (Hpay : pack_Is [if reboot then 0 else 1] = Ok payload)
    by (destruct reboot; reflexivity).
  assert (Hpkt : request_packet ESP_FLASH_END payload 0 = Ok pkt)
    by (destruct reboot; reflexivity).
  destruct (loopback_receive_accepts (Some ESP_FLASH_END) x04 val body (slip_frame pkt) tmo
              Hlen eq_refl) as [tr H].
  assert (Hro : Forall is_read tr).
  { change tr with (trace (Ok (val mod 2 ^ 32, body), mkPort (slip_frame pkt) tmo, tr)).
    rewrite <- H. apply reads_only_receive. }
  assert (Hc : command (Some ESP_FLASH_END) payload 0
                 (mkPort (response_frame x01 x04 val body) tmo) =
               (Ok (val mod 2 ^ 32, body), mkPort (slip_frame pkt) tmo,
                [EvWrite (slip_frame pkt)] ++ tr)).
  { rewrite command_split. eapply bind_ok_eq; [|exact H].
    unfold send_request, bind, lift. rewrite Hpkt. reflexivity. }
  unfold flash_finish.
  rewrite (bind_ok _ _ _ payload (mkPort (response_frame x01 x04 val body) tmo) [])
    by (unfold lift; rewrite Hpay; reflexivity).
  cbn [outcome trace fst snd app].
  rewrite (bind_ok _ _ _ _ _ _ Hc). cbn [outcome trace fst snd].
  split.
  - destruct (bytes_eqb body [x00; x00] || bytes_eqb body [x01; x06]); reflexivity.
  - cbn [app writes]. rewrite writes_app, (writes_of_reads _ Hro).
    destruct (bytes_eqb body [x00; x00] || bytes_eqb body [x01; x06]); reflexivity.
Qed.

Lemma flash_finish_accepts_two_bodies_witness :
  outcome (flash_finish true (mkPort (response_frame x01 x04 0 [x01; x06]) None)) = Ok tt.
Proof.
  apply (flash_finish_accepts_two_bodies true 0 [x01; x06] None).
  unfold len. cbn. lia.
Defined.

(* ================================================================== *)
(** * Commands against the acknowledging device                        *)
(* ================================================================== *)

Lemma ack_pops :
  forall (t : option Q) (d : ack_line) (c : byte) (q : bytes),
    pending d = c :: q ->
    exists d', port_read t d = (Ok (Some c), d') /\ pending d' = q /\
               value d' = value d.
Proof.
  intros t d c q H. exists (mkAck q (value d)). cbn. rewrite H. auto.
Qed.

Lemma request_packet_inv (op : Z) (p : bytes) (chk : Z) (pkt : bytes) :
  request_packet op p chk = Ok pkt ->
  pkt = le_bytes 1 0 ++ le_bytes 1 op ++ le_bytes 2 (len p) ++ le_bytes 4 chk ++ p /\
  0 <= op < 256 /\ len p < 65536 /\ u32 chk.
Proof.
  unfold request_packet, pack_B, pack_H, pack_I, pack_uint.
  change (2 ^ (8 * Z.of_nat 1)) with 256.
  change (2 ^ (8 * Z.of_nat 2)) with 65536.
  change (2 ^ (8 * Z.of_nat 4)) with (2 ^ 32).
  cbn [rbind andb Z.leb Z.ltb Z.compare].
  destruct (Z.leb_spec 0 op), (Z.ltb_spec op 256); cbn [andb rbind]; try discriminate.
  destruct (Z.leb_spec 0 (len p)), (Z.ltb_spec (len p) 65536);
    cbn [andb rbind]; try discriminate.
  destruct (Z.leb_spec 0 chk), (Z.ltb_spec chk (2 ^ 32));
    cbn [andb rbind]; try discriminate.
  intros Heq. injection Heq as <-. unfold u32. repeat split; lia.
Qed.

Lemma frame_opcode_byte (op : Z) (p : bytes) (chk : Z) (pkt : bytes) :
  request_packet op p chk = Ok pkt ->
  slip_escape (byte_of_Z op) = [byte_of_Z op] ->
  nth_error (slip_frame pkt) 2 = Some (byte_of_Z op).
Proof.
  intros Hp Hesc. destruct (request_packet_inv _ _ _ _ Hp) as [-> _].
  unfold slip_frame. rewrite escape_payload.
  cbn [le_bytes app flat_map]. rewrite Hesc.
  change (slip_escape (byte_of_Z 0)) with [x00]. reflexivity.
Qed.

(** Against the acknowledging device with nothing pending, a command
    that can be packed succeeds: it writes its frame, reads the
    acknowledgement and leaves the device as it was. *)
Lemma ack_simple_command (op : Z) (data : bytes) (chk : Z) (pkt : bytes)
      (v : Z) (tmo : option Q) :
  request_packet op data chk = Ok pkt ->
  slip_escape (byte_of_Z op) = [byte_of_Z op] ->
  op <> 0 ->
  exists tr,
    simple_command (Some op) data chk (mkPort (mkAck [] v) tmo) =
      (Ok (v mod 2 ^ 32), mkPort (mkAck [] v) tmo, tr) /\
    writes tr = [slip_frame pkt].
Proof.
  intros Hp Hesc Hop.
  pose proof (frame_opcode_byte _ _ _ _ Hp Hesc) as Hnth.
  destruct (request_packet_inv _ _ _ _ Hp) as (_ & Hrange & _ & _).
  assert (Hsend : send_request (Some op) data chk (mkPort (mkAck [] v) tmo) =
                  (Ok tt,
                   mkPort (mkAck (response_frame x01 (byte_of_Z op) v [x00; x00] ++ []) v) tmo,
                   [EvWrite (slip_frame pkt)])).
  { unfold send_request, bind, lift, write, write_bytes. rewrite Hp.
    cbn [port_write ack_serial dev timeout pending value]. rewrite Hnth.
    rewrite app_nil_r. reflexivity. }
  destruct (queue_receive_accepts pending (fun d d' => value d' = value d)
              (fun _ => eq_refl) (fun d1 d2 d3 H12 H23 => eq_trans H23 H12) ack_pops
              (Some op) (byte_of_Z op) v [x00; x00] []
              (mkAck (response_frame x01 (byte_of_Z op) v [x00; x00] ++ []) v) tmo
              eq_refl)
    as (d' & tr & Hrecv & Hq & Hv).
  { unfold len. cbn. lia. }
  { unfold op_mismatch. rewrite Z_of_byte_small by exact Hrange.
    rewrite Z.eqb_refl. apply andb_false_r. }
  assert (Hd : d' = mkAck [] v) by (destruct d'; cbn in *; congruence).
  subst d'.
  assert (Hro : Forall is_read tr).
  { match type of Hrecv with
    | _ ?s = _ => pose proof (reads_only_receive (Some op) s) as Hro
    end.
    rewrite Hrecv in Hro. exact Hro. }
  assert (Hc : command (Some op) data chk (mkPort (mkAck [] v) tmo) =
               (Ok (v mod 2 ^ 32, [x00; x00]), mkPort (mkAck [] v) tmo,
                [EvWrite (slip_frame pkt)] ++ tr)).
  { rewrite command_split.
    exact (bind_ok_eq (send_request (Some op) data chk)
             (fun _ => receive_response (Some op)) _ tt _ _ _ _ _ Hsend Hrecv). }
  eexists. split.
  - unfold simple_command.
    exact (bind_ok_eq (command (Some op) data chk) _ _ _ _ _ _ _ _ Hc eq_refl).
  - cbn [app writes]. rewrite writes_app, (writes_of_reads _ Hro). reflexivity.
Qed.

(** X22.  Against a device that acknowledges every command with its
    register value, [read_reg] returns that value for every 32-bit
    address and value, having written exactly one frame: the request
    with opcode 0x0A whose payload is the address. *)
Theorem read_reg_returns_device_value (addr v : Z) (tmo : option Q) :
  u32 addr -> u32 v ->
  let s := mkPort (mkAck [] v) tmo in
  outcome (read_reg addr s) = Ok v /\
  final (read_reg addr s) = s /\
  exists w, writes (trace (read_reg addr s)) = [w] /\
            is_request ESP_READ_REG (pack_Is [addr]) (Ok 0) w.
Proof.
  intros Ha Hv. cbv zeta.
  assert (Hpay : pack_Is [addr] = Ok (le_bytes 4 addr)).
  { cbn [pack_Is]. rewrite pack_I_ok by exact Ha. cbn [rbind].
    rewrite app_nil_r. reflexivity. }
  pose proof (request_packet_ok ESP_READ_REG (le_bytes 4 addr) 0
                ltac:(unfold ESP_READ_REG; lia)
                ltac:(unfold len; rewrite le_bytes_length; lia)
                ltac:(unfold u32; lia)) as Hpkt.
  destruct (ack_simple_command ESP_READ_REG (le_bytes 4 addr) 0 _ v tmo Hpkt eq_refl)
    as (tr & Hsc & Hw); [discriminate|].
  rewrite Z.mod_small in Hsc by exact Hv.
  assert (Hr : read_reg addr (mkPort (mkAck [] v) tmo) =
               (Ok v, mkPort (mkAck [] v) tmo, [] ++ tr)).
  { unfold read_reg.
    refine (bind_ok_eq (lift (pack_Is [addr])) _ _ (le_bytes 4 addr) _ [] _ _ _ _ Hsc).
    unfold lift. rewrite Hpay. reflexivity. }
  rewrite Hr. cbn [outcome final trace fst snd app].
  split; [reflexivity|]. split; [reflexivity|].
  eexists. split; [exact Hw|].
  eexists _, 0, _. split; [exact Hpay|]. split; [reflexivity|].
  split; [exact Hpkt | reflexivity].
Qed.

Lemma read_reg_returns_device_value_witness :
  outcome (read_reg 0x3ff00050 (mkPort (mkAck [] 0xc0dbc0db) None)) = Ok 0xc0dbc0db.
Proof.
  apply (read_reg_returns_device_value 0x3ff00050 0xc0dbc0db None);
    unfold u32; lia.
Defined.

Lemma checksum_u32 (chunk : bytes) :
  chunk <> [] -> exists ck, checksum chunk ESP_CHECKSUM_MAGIC = Ok ck /\ u32 ck.
Proof.
  intros Hne. destruct chunk as [|c chunk]; [congruence|].
  rewrite checksum_nonempty. eexists. split; [reflexivity|].
  assert (H : 0 <= Z.lxor ESP_CHECKSUM_MAGIC
                     (fold_left Z.lxor (map Z_of_byte chunk) (Z_of_byte c)) < 256).
  { apply lxor_byte_range; [unfold ESP_CHECKSUM_MAGIC; lia|].
    apply fold_lxor_range, Z_of_byte_range. }
  unfold u32. lia.
Qed.

Lemma block_payload_ok (data : bytes) (seq : Z) :
  len data < 2 ^ 32 -> u32 seq ->
  block_payload data seq =
  Ok (le_bytes 4 (len data) ++ le_bytes 4 seq ++ le_bytes 4 0 ++ le_bytes 4 0 ++ data).
Proof.
  intros Hl Hs. unfold block_payload.
  rewrite pack_IIII_ok; try assumption; try (unfold u32, len in *; lia).
  cbn [rbind]. rewrite <- !app_assoc. reflexivity.
Qed.

Lemma ack_flash_block (chunk : bytes) (seq v : Z) (tmo : option Q) :
  chunk <> [] -> len chunk <= 0x400 -> u32 seq ->
  exists tr w,
    (flash_block chunk seq ;;; ret tt)%port (mkPort (mkAck [] v) tmo) =
      (Ok tt, mkPort (mkAck [] v) tmo, tr) /\
    writes tr = [w] /\
    is_request ESP_FLASH_DATA (block_payload chunk seq)
                              (checksum chunk ESP_CHECKSUM_MAGIC) w.
Proof.
  intros Hne Hlen Hseq.
  destruct (checksum_u32 chunk Hne) as (ck & Hck & Hcku).
  pose proof (block_payload_ok chunk seq ltac:(lia) Hseq) as Hpay.
  set (p := le_bytes 4 (len chunk) ++ le_bytes 4 seq ++ le_bytes 4 0 ++ le_bytes 4 0 ++ chunk) in *.
  assert (Hplen : len p = 16 + len chunk).
  { unfold p, len. rewrite !length_app, !le_bytes_length. lia. }
  pose proof (request_packet_ok ESP_FLASH_DATA p ck
                ltac:(unfold ESP_FLASH_DATA; lia) ltac:(lia) Hcku) as Hpkt.
  destruct (ack_simple_command ESP_FLASH_DATA p ck _ v tmo Hpkt eq_refl)
    as (tr & Hsc & Hw); [discriminate|].
  assert (Hfb : flash_block chunk seq (mkPort (mkAck [] v) tmo) =
                (Ok (v mod 2 ^ 32), mkPort (mkAck [] v) tmo, [] ++ [] ++ tr)).
  { unfold flash_block.
    refine (bind_ok_eq (lift (block_payload chunk seq)) _ _ p _ [] _ _ _ _ _);
      [unfold lift; rewrite Hpay; reflexivity|].
    refine (bind_ok_eq (lift (checksum chunk ESP_CHECKSUM_MAGIC)) _ _ ck _ [] _ _ _ _ Hsc).
    unfold lift. rewrite Hck. reflexivity. }
  exists (([] ++ [] ++ tr) ++ []), (slip_frame
            (le_bytes 1 0 ++ le_bytes 1 ESP_FLASH_DATA ++ le_bytes 2 (len p) ++
             le_bytes 4 ck ++ p)).
  split; [|split].
  - exact (bind_ok_eq (flash_block chunk seq) (fun _ => ret tt) _ _ _ _ _ _ _ Hfb eq_refl).
  - rewrite app_nil_r. exact Hw.
  - exists p, ck, (le_bytes 1 0 ++ le_bytes 1 ESP_FLASH_DATA ++ le_bytes 2 (len p) ++
                   le_bytes 4 ck ++ p).
    split; [exact Hpay|]. split; [exact Hck|]. split; [exact Hpkt | reflexivity].
Qed.

Lemma ack_flash_blocks (l : list (Z * bytes)) (v : Z) (tmo : option Q) :
  Forall (fun sc => snd sc <> [] /\ len (snd sc) <= 0x400 /\ u32 (fst sc)) l ->
  exists tr,
    for_each l (fun sc => (flash_block (snd sc) (fst sc) ;;; ret tt)%port)
      (mkPort (mkAck [] v) tmo) = (Ok tt, mkPort (mkAck [] v) tmo, tr) /\
    Forall2 (fun w sc => is_request ESP_FLASH_DATA (block_payload (snd sc) (fst sc))
                           (checksum (snd sc) ESP_CHECKSUM_MAGIC) w)
            (writes tr) l.
Proof.
  induction 1 as [|sc l (Hne & Hlen & Hseq) _ (tr & Hrun & Hall)].
  - exists []. split; [reflexivity | constructor].
  - destruct (ack_flash_block (snd sc) (fst sc) v tmo Hne Hlen Hseq)
      as (t1 & w & H1 & Hw1 & Hreq).
    exists (t1 ++ tr). split.
    + cbn [for_each].
      exact (bind_ok_eq _ (fun _ => for_each l _) _ _ _ _ _ _ _ H1 Hrun).
    + rewrite writes_app, Hw1. cbn [app]. constructor; assumption.
Qed.

Lemma enumerate_from_bounds {A} (l : list A) (start : Z) :
  Forall (fun sc => start <= fst sc < start + len l /\ In (snd sc) l)
         (enumerate_from start l).
Proof.
  revert start. induction l as [|x l IH]; intros start; cbn [enumerate_from].
  - constructor.
  - constructor.
    + cbn [fst snd]. unfold len. cbn [List.length]. split; [lia | left; reflexivity].
    + eapply Forall_impl; [|apply (IH (start + 1))].
      cbv beta. intros sc [Hb Hin]. unfold len in *. cbn [List.length].
      split; [lia | right; exact Hin].
Qed.

Lemma chunks_count_le {A} (l : list A) (n : nat) :
  (0 < n)%nat -> (List.length (chunks l n) <= List.length l)%nat.
Proof.
  intros Hn.
  pose proof (chunks_from_concat n (List.length l) l Hn (Nat.le_refl _)) as Hc.
  pose proof (chunks_from_sizes n (List.length l) l Hn) as Hs.
  fold (chunks l n) in Hc, Hs.
  rewrite <- Hc at 2. clear Hc.
  induction Hs as [|c cs Hc _ IH]; [cbn; lia|].
  cbn [List.concat List.length]. rewrite length_app. lia.
Qed.

(** X23.  Writing a flash image to a device that acknowledges every
    command.  For every offset that fits 32 bits and every image shorter
    than 2^32 bytes, [flash_image] first writes the flash-begin request
    for the whole length at the offset, and in every case leaves the
    port, its timeout included, as it found it.  What follows depends on
    the module-level name [esp], through which the block size is read.
    When the module runs as a script on a port, [esp] is bound and
    [flash_image] returns normally after writing one flash-block request
    per 0x400-byte block of the image, in order, each carrying its block,
    its sequence number counted from 0 and the checksum of the block.
    When the module is imported, or run without a port, [esp] is unbound
    and [flash_image] raises [NameError] right after the flash-begin,
    with no block written. *)
Theorem flash_image_acknowledged
  (mode : run_mode) (offx : Z) (img : bytes) (v : Z) (tmo : option Q) :
  u32 offx -> len img < 2 ^ 32 ->
  let s := mkPort (mkAck [] v) tmo in
  final (flash_image mode offx img s) = s /\
  exists wbegin,
    is_request ESP_FLASH_BEGIN (flash_begin_payload (len img) offx) (Ok 0) wbegin /\
    match mode with
    | Script true =>
        outcome (flash_image mode offx img s) = Ok tt /\
        exists wblocks,
          writes (trace (flash_image mode offx img s)) = wbegin :: wblocks /\
          Forall2 (fun w sc => is_request ESP_FLASH_DATA (block_payload (snd sc) (fst sc))
                                 (checksum (snd sc) ESP_CHECKSUM_MAGIC) w)
                  wblocks (enumerate (chunks img 0x400))
    | _ =>
        outcome (flash_image mode offx img s) = Raise (NameError "esp") /\
        writes (trace (flash_image mode offx img s)) = [wbegin]
    end.
Proof.
  intros Hoff Himg. cbv zeta.
  assert (Hlen : u32 (len img)) by (unfold u32, len in *; lia).
  (* the flash-begin *)
  pose proof (pack_IIII_ok (len img) 0x200 0x400 offx Hlen
                ltac:(unfold u32; lia) ltac:(unfold u32; lia) Hoff) as Hpay.
  set (p := le_bytes 4 (len img) ++ le_bytes 4 0x200 ++ le_bytes 4 0x400 ++ le_bytes 4 offx) in *.
  pose proof (request_packet_ok ESP_FLASH_BEGIN p 0
                ltac:(unfold ESP_FLASH_BEGIN; lia)
                ltac:(unfold p, len; rewrite !length_app, !le_bytes_length; cbn; lia)
                ltac:(unfold u32; lia)) as Hpkt.
  destruct (ack_simple_command ESP_FLASH_BEGIN p 0 _ v (Some 10%Q) Hpkt eq_refl)
    as (t1 & Hsc & Hw1); [discriminate|].
  assert (Hbody : (q <- lift (flash_begin_payload (len img) offx) ;;
                   simple_command (Some ESP_FLASH_BEGIN) q 0)%port
                    (mkPort (dev (mkPort (mkAck [] v) tmo)) (Some 10%Q)) =
                  (Ok (v mod 2 ^ 32), mkPort (mkAck [] v) (Some 10%Q), [] ++ t1)).
  { refine (bind_ok_eq (lift (flash_begin_payload (len img) offx)) _ _ p _ [] _ _ _ _ Hsc).
    unfold lift, flash_begin_payload. rewrite Hpay. reflexivity. }
  pose proof (flash_begin_unfold _ _ _ _ _ _ Hbody) as Hbegin.
  cbn [dev timeout app] in Hbegin.
  assert (Hreq : is_request ESP_FLASH_BEGIN (flash_begin_payload (len img) offx) (Ok 0)
                   (slip_frame (le_bytes 1 0 ++ le_bytes 1 ESP_FLASH_BEGIN ++
                                le_bytes 2 (len p) ++ le_bytes 4 0 ++ p))).
  { exists p, 0, (le_bytes 1 0 ++ le_bytes 1 ESP_FLASH_BEGIN ++
                  le_bytes 2 (len p) ++ le_bytes 4 0 ++ p).
    split; [exact Hpay|]. split; [reflexivity|]. split; [exact Hpkt | reflexivity]. }
  (* without [esp]: the flash-begin, then the NameError *)
  assert (Hunbound :
            rbind (load_global mode "esp") attr_ESP_FLASH_BLOCK = Raise (NameError "esp") ->
            flash_image mode offx img (mkPort (mkAck [] v) tmo) =
            (Raise (NameError "esp"), mkPort (mkAck [] v) tmo,
             (EvSetTimeout (Some 10%Q) :: t1 ++ [EvSetTimeout tmo]) ++ [])).
  { intros Hesp. unfold flash_image.
    refine (bind_ok_eq (flash_begin (len img) offx) _ _ _ _ _ _ _ _ Hbegin _).
    apply bind_raise. unfold lift. rewrite Hesp. reflexivity. }
  assert (Hw : writes ((EvSetTimeout (Some 10%Q) :: t1 ++ [EvSetTimeout tmo]) ++ []) =
               [slip_frame (le_bytes 1 0 ++ le_bytes 1 ESP_FLASH_BEGIN ++
                            le_bytes 2 (len p) ++ le_bytes 4 0 ++ p)]).
  { rewrite app_nil_r. cbn [writes]. rewrite writes_app, Hw1. reflexivity. }
  pose proof (esp_block_size mode) as Hesp.
  destruct mode as [|[|]].
  - (* imported *)
    rewrite (Hunbound Hesp). cbn [outcome final trace fst snd].
    split; [reflexivity|]. eexists. split; [exact Hreq|]. split; [reflexivity | exact Hw].
  - (* a script on a port: the blocks follow *)
    clear Hunbound.
    assert (Hblocks : Forall (fun sc => snd sc <> [] /\ len (snd sc) <= 0x400 /\ u32 (fst sc))
                             (enumerate (chunks img (Z.to_nat 0x400)))).
    { pose proof (chunks_from_sizes (Z.to_nat 0x400) (List.length img) img ltac:(lia)) as Hs.
      fold (chunks img (Z.to_nat 0x400)) in Hs.
      pose proof (chunks_count_le img (Z.to_nat 0x400) ltac:(lia)) as Hc.
      eapply Forall_impl; [|apply enumerate_from_bounds].
      cbv beta. intros sc [Hb Hin].
      rewrite Forall_forall in Hs. specialize (Hs _ Hin).
      split; [|split].
      - intros E. rewrite E in Hs. cbn in Hs. lia.
      - unfold len. lia.
      - unfold u32, len in *. lia. }
    destruct (ack_flash_blocks _ v tmo Hblocks) as (t2 & Hrun & Hall).
    assert (Hfi : flash_image (Script true) offx img (mkPort (mkAck [] v) tmo) =
                  (Ok tt, mkPort (mkAck [] v) tmo,
                   (EvSetTimeout (Some 10%Q) :: t1 ++ [EvSetTimeout tmo]) ++ [] ++ t2)).
    { unfold flash_image.
      refine (bind_ok_eq (flash_begin (len img) offx) _ _ _ _ _ _ _ _ Hbegin _).
      refine (bind_ok_eq (lift (rbind (load_global (Script true) "esp") attr_ESP_FLASH_BLOCK))
                _ _ 0x400 _ [] _ _ _ eq_refl _).
      exact Hrun. }
    rewrite Hfi. cbn [outcome final trace fst snd].
    split; [reflexivity|]. eexists. split; [exact Hreq|]. split; [reflexivity|].
    exists (writes t2). split; [|exact Hall].
    cbn [app writes]. rewrite !writes_app, Hw1. reflexivity.
  - (* a script without a port *)
    rewrite (Hunbound Hesp). cbn [outcome final trace fst snd].
    split; [reflexivity|]. eexists. split; [exact Hreq|]. split; [reflexivity | exact Hw].
Qed.

Lemma flash_image_acknowledged_witness :
  final (flash_image (Script true) 0x1000 (repeat xc0 5) (mkPort (mkAck [] 0) (Some 5%Q))) =
    mkPort (mkAck [] 0) (Some 5%Q) /\
  final (flash_image Imported 0x1000 (repeat xc0 5) (mkPort (mkAck [] 0) (Some 5%Q))) =
    mkPort (mkAck [] 0) (Some 5%Q).
Proof.
  split.
  - apply (flash_image_acknowledged (Script true) 0x1000 (repeat xc0 5) 0 (Some 5%Q)).
    + unfold u32. lia.
    + unfold len. cbn. lia.
  - apply (flash_image_acknowledged Imported 0x1000 (repeat xc0 5) 0 (Some 5%Q)).
    + unfold u32. lia.
    + unfold len. cbn. lia.
Defined.

(* ================================================================== *)
(** * Requests, block payloads and the download-finish                 *)
(* ================================================================== *)

Lemma packet_fields (a b : byte) (L v : Z) (rest : bytes) :
  let pkt := [a; b] ++ le_bytes 2 L ++ le_bytes 4 v ++ rest in
  uint_at 0 1 pkt = Z_of_byte a /\
  uint_at 1 1 pkt = Z_of_byte b /\
  uint_at 2 2 pkt = L mod 65536 /\
  uint_at 4 4 pkt = v mod 2 ^ 32 /\
  skipn 8 pkt = rest.
Proof.
  cbv zeta. unfold uint_at. cbn [le_bytes app skipn firstn le_int].
  repeat split; try lia.
  - change (Z_of_byte (byte_of_Z L) + 256 * (Z_of_byte (byte_of_Z (L / 256)) + 256 * 0))
      with (le_int (le_bytes 2 L)).
    apply le_int_le_bytes.
  - change (Z_of_byte (byte_of_Z v) +
            256 * (Z_of_byte (byte_of_Z (v / 256)) +
                   256 * (Z_of_byte (byte_of_Z (v / 256 / 256)) +
                          256 * (Z_of_byte (byte_of_Z (v / 256 / 256 / 256)) + 256 * 0))))
      with (le_int (le_bytes 4 v)).
    apply le_int_le_bytes.
Qed.

(** X24.  The request of a command can be packed exactly when the
    opcode fits a byte, the payload is shorter than 65536 bytes and the
    checksum fits 32 bits; the packet is then 8 header bytes followed by
    the payload unchanged, and the header reads back as direction 0, the
    opcode, the payload length and the checksum. *)
Theorem request_packet_layout (op : Z) (data : bytes) (chk : Z) :
  ((exists pkt, request_packet op data chk = Ok pkt) <->
   (0 <= op < 256 /\ len data < 65536 /\ u32 chk)) /\
  (forall pkt,
     request_packet op data chk = Ok pkt ->
     uint_at 0 1 pkt = 0 /\
     uint_at 1 1 pkt = op /\
     uint_at 2 2 pkt = len data /\
     uint_at 4 4 pkt = chk /\
     skipn 8 pkt = data /\
     len pkt = 8 + len data).
Proof.
  split.
  - split.
    + intros [pkt H]. destruct (request_packet_inv _ _ _ _ H) as (_ & H1 & H2 & H3). auto.
    + intros (H1 & H2 & H3). eexists. apply request_packet_ok; assumption.
  - intros pkt H. destruct (request_packet_inv _ _ _ _ H) as (-> & H1 & H2 & H3).
    destruct (packet_fields (byte_of_Z 0) (byte_of_Z op) (len data) chk data)
      as (F0 & F1 & F2 & F3 & F4).
    cbv zeta in *. cbn [le_bytes app] in *.
    rewrite F0, F1, F2, F3.
    rewrite (Z_of_byte_small op) by exact H1.
    rewrite !Z.mod_small by (unfold u32, len in *; lia).
    repeat split; try reflexivity; try exact F4.
    unfold len. cbn [List.length]. lia.
Qed.

Lemma request_packet_layout_witness :
  exists pkt, request_packet ESP_MEM_DATA [xc0; xdb] 0xef = Ok pkt.
Proof.
  apply (proj1 (request_packet_layout ESP_MEM_DATA [xc0; xdb] 0xef)).
  unfold ESP_MEM_DATA, u32, len. cbn. lia.
Defined.

(** X25.  The payload of a RAM or flash block can be packed exactly
    when the sequence number fits 32 bits (and the data is shorter than
    2^32 bytes); it is then four 32-bit fields, the data length, the
    sequence number, 0 and 0, followed by the data unchanged. *)
Theorem block_payload_layout (data : bytes) (seq : Z) :
  ((exists p, block_payload data seq = Ok p) <-> (len data < 2 ^ 32 /\ u32 seq)) /\
  (forall p,
     block_payload data seq = Ok p ->
     u32_at 0 p = len data /\
     u32_at 4 p = seq /\
     u32_at 8 p = 0 /\
     u32_at 12 p = 0 /\
     skipn 16 p = data).
Proof.
  assert (Hinv : forall p, block_payload data seq = Ok p -> len data < 2 ^ 32 /\ u32 seq).
  { intros p. unfold block_payload. cbn [pack_Is]. unfold pack_I, pack_uint.
    change (2 ^ (8 * Z.of_nat 4)) with (2 ^ 32). cbn [rbind].
    destruct (Z.leb_spec 0 (len data)), (Z.ltb_spec (len data) (2 ^ 32));
      cbn [andb rbind]; try discriminate.
    destruct (Z.leb_spec 0 seq), (Z.ltb_spec seq (2 ^ 32));
      cbn [andb rbind]; try discriminate.
    intros _. unfold u32. lia. }
  split.
  - split.
    + intros [p H]. exact (Hinv p H).
    + intros [H1 H2]. eexists. apply block_payload_ok; assumption.
  - intros p H. destruct (Hinv p H) as [H1 H2].
    rewrite (block_payload_ok data seq H1 H2) in H. injection H as <-.
    assert (Hl : u32 (len data)) by (unfold u32, len in *; lia).
    assert (H0 : u32 0) by (unfold u32; lia).
    unfold u32_at, uint_at. cbn [le_bytes app skipn firstn].
    split; [exact (u32_le_bytes _ Hl)|].
    split; [exact (u32_le_bytes _ H2)|].
    split; [exact (u32_le_bytes _ H0)|].
    split; [exact (u32_le_bytes _ H0) | reflexivity].
Qed.

Lemma block_payload_layout_witness :
  exists p, block_payload [xc0; xdb; x00] 7 = Ok p.
Proof.
  apply (proj1 (block_payload_layout [xc0; xdb; x00] 7)).
  unfold u32, len. cbn. lia.
Defined.

Section Blocks.
Context {D : Type} {serial : Serial D}.

(** X26.  A block command given no data never reaches the wire:
    [mem_block(b'', seq)] and [flash_block(b'', seq)] raise [TypeError],
    from the checksum of the empty data, when the sequence number fits
    32 bits and [struct.error] when it does not; in both cases nothing is
    written or read and the port is untouched. *)
Theorem block_commands_need_data (seq : Z) (s : port D) :
  let e := if (0 <=? seq) && (seq <? 2 ^ 32) then TypeError else StructError in
  mem_block [] seq s = (Raise e, s, []) /\
  flash_block [] seq s = (Raise e, s, []).
Proof.
  cbv zeta. unfold mem_block, flash_block, block_payload, bind, lift.
  cbn [pack_Is]. unfold pack_I, pack_uint.
  change (2 ^ (8 * Z.of_nat 4)) with (2 ^ 32).
  change (len (@nil byte)) with 0.
  cbn [rbind andb Z.leb Z.ltb Z.compare].
  destruct ((0 <=? seq) && (seq <? 2 ^ 32)); cbn [rbind]; split; reflexivity.
Qed.

(** X27.  [mem_finish] starts by writing the framed download-finish
    request (opcode 0x06) whose payload is two 32-bit fields: the run
    flag, which is 1 exactly when the entrypoint is 0 and 0 otherwise,
    and the entrypoint itself. *)
Theorem mem_finish_request (entrypoint : Z) (s : port D) :
  u32 entrypoint ->
  exists p pkt rest,
    mem_finish_payload entrypoint = Ok p /\
    request_packet ESP_MEM_END p 0 = Ok pkt /\
    trace (mem_finish entrypoint s) = EvWrite (slip_frame pkt) :: rest /\
    u32_at 4 p = entrypoint /\
    (u32_at 0 p = 1 <-> entrypoint = 0) /\
    (u32_at 0 p = 0 <-> entrypoint <> 0).
Proof.
  intros He.
  destruct (mem_finish_run_flag entrypoint He) as (p & Hp & H4 & H1 & H0).
  assert (Hlen : len p = 8).
  { unfold mem_finish_payload in Hp. cbn [pack_Is] in Hp.
    unfold pack_I, pack_uint in Hp. cbn [rbind] in Hp.
    destruct ((0 <=? (if entrypoint =? 0 then 1 else 0)) &&
              ((if entrypoint =? 0 then 1 else 0) <? 2 ^ (8 * Z.of_nat 4)));
      cbn [rbind] in Hp; [|discriminate].
    destruct ((0 <=? entrypoint) && (entrypoint <? 2 ^ (8 * Z.of_nat 4)));
      cbn [rbind] in Hp; [|discriminate].
    injection Hp as <-. reflexivity. }
  pose proof (request_packet_ok ESP_MEM_END p 0
                ltac:(unfold ESP_MEM_END; lia) ltac:(lia) ltac:(unfold u32; lia)) as Hpkt.
  destruct (simple_command_writes_request _ _ _ _ s Hpkt) as [rest Hrest].
  exists p, (le_bytes 1 0 ++ le_bytes 1 ESP_MEM_END ++ le_bytes 2 (len p) ++
             le_bytes 4 0 ++ p), rest.
  split; [exact Hp|]. split; [exact Hpkt|].
  split; [|split; [exact H4 | split; [exact H1 | exact H0]]].
  unfold mem_finish.
  rewrite (bind_ok _ _ _ p s []) by (unfold lift; rewrite Hp; reflexivity).
  cbn [trace snd app]. exact Hrest.
Qed.

Lemma read_n_length (n : nat) (s : port D) (bs : bytes) :
  outcome (read_n n s) = Ok bs -> List.length bs = n.
Proof.
  revert s bs. induction n as [|n IH]; intros s bs H.
  - cbn in H. injection H as <-. reflexivity.
  - cbn [read_n] in H. unfold bind, outcome in H.
    destruct (slip_read s) as [[[c|e] s1] t1]; cbn [fst] in H; [|discriminate].
    specialize (IH s1). unfold outcome in IH.
    destruct (read_n n s1) as [[[cs|e] s2] t2]; cbn [fst ret] in *; [|discriminate].
    injection H as <-. cbn [List.length]. f_equal. apply IH. reflexivity.
Qed.

(** X28.  Whenever [read(length)] returns, it returns exactly
    [length] bytes, however many escape pairs it had to read for them;
    for a length of zero or less it returns the empty bytes object
    without touching the port. *)
Theorem read_returns_requested_length (length : Z) (s : port D) :
  (forall bs, outcome (read length s) = Ok bs -> len bs = Z.max 0 length) /\
  (length <= 0 -> read length s = (Ok [], s, [])).
Proof.
  split.
  - intros bs H. apply read_n_length in H. unfold len. rewrite H. lia.
  - intros Hle. unfold read. replace (Z.to_nat length) with O by lia. reflexivity.
Qed.

(** X29.  The failures of [read].  For a positive length: when the
    first byte does not arrive, [read] raises [IndexError]; when the
    byte 0xDB is followed by a byte other than 0xDC and 0xDD, it raises
    [ValueError] for the invalid escape; and when nothing follows the
    byte 0xDB, it raises [IndexError], which the handler for the escape
    table's [KeyError] does not catch. *)
Theorem read_failures (length : Z) (s : port D) :
  0 < length ->
  (forall d1,
     port_read (timeout s) (dev s) = (Ok None, d1) ->
     read length s = (Raise IndexError, mkPort d1 (timeout s), [EvRead (timeout s)])) /\
  (forall d1 d2 c,
     port_read (timeout s) (dev s) = (Ok (Some xdb), d1) ->
     port_read (timeout s) d1 = (Ok (Some c), d2) ->
     c <> xdc -> c <> xdd ->
     read length s =
       (Raise (ValueError "Invalid SLIP escape sequence received from device"),
        mkPort d2 (timeout s), [EvRead (timeout s); EvRead (timeout s)])) /\
  (forall d1 d2,
     port_read (timeout s) (dev s) = (Ok (Some xdb), d1) ->
     port_read (timeout s) d1 = (Ok None, d2) ->
     read length s =
       (Raise IndexError, mkPort d2 (timeout s), [EvRead (timeout s); EvRead (timeout s)])).
Proof.
  intros Hpos. unfold read.
  destruct (Z.to_nat length) as [|n] eqn:En; [lia|].
  cbn [read_n]. unfold bind at 1. unfold slip_read, bind, read_byte.
  split; [|split].
  - intros d1 H1. rewrite H1. reflexivity.
  - intros d1 d2 c H1 H2 Hdc Hdd. rewrite H1.
    change (Byte.eqb xdb xdb) with true. cbn [dev timeout]. rewrite H2.
    destruct (Byte.eqb c xdc) eqn:E1; [apply Byte.byte_dec_bl in E1; contradiction|].
    destruct (Byte.eqb c xdd) eqn:E2; [apply Byte.byte_dec_bl in E2; contradiction|].
    reflexivity.
  - intros d1 d2 H1 H2. rewrite H1.
    change (Byte.eqb xdb xdb) with true. cbn [dev timeout]. rewrite H2.
    reflexivity.
Qed.

End Blocks.

Lemma mem_finish_request_witness :
  exists p, mem_finish_payload 0 = Ok p /\ u32_at 0 p = 1.
Proof.
  destruct (mem_finish_request 0 (mkPort (answers_at 0) None))
    as (p & pkt & rest & Hp & _ & _ & _ & H1 & _).
  - unfold u32. lia.
  - exists p. split; [exact Hp | apply H1; reflexivity].
Defined.

Lemma read_returns_requested_length_witness :
  len [xc0; xdb] = Z.max 0 2.
Proof.
  apply (proj1 (read_returns_requested_length 2
                  (mkPort ([xdb; xdc; xdb; xdd] : bytes) None))).
  reflexivity.
Defined.

Lemma read_failures_witness :
  read 1 (mkPort ([xdb; x00] : bytes) None) =
  (Raise (ValueError "Invalid SLIP escape sequence received from device"),
   mkPort ([] : bytes) None, [EvRead None; EvRead None]).
Proof.
  apply (proj1 (proj2 (read_failures 1 (mkPort ([xdb; x00] : bytes) None) ltac:(lia)))
           [x00] [] x00); try reflexivity; discriminate.
Defined.

Lemma pad4_shape_witness :
  pad4 [x01; x02; x03; x04] = [x01; x02; x03; x04].
Proof.
  destruct (pad4_shape [x01; x02; x03; x04]) as (k & Hp & _ & _ & Hk).
  rewrite Hp, (Hk eq_refl). reflexivity.
Defined.

Lemma static_image_fails_iff_empty_witness :
  fst (static_image (init None ESP_FLASH_BASE)) = Raise IndexError.
Proof.
  apply (proj1 (proj1 (static_image_fails_iff_empty (init None ESP_FLASH_BASE)))).
  reflexivity.
Defined.
